(** * NamelessTelemetry: a shallow embedding of [telemetry.py]

    The census client reads its policy from the process environment, keeps an
    anonymous instance identifier in a state file, builds a five-field payload
    and posts it, once at start-up and then on every even UTC hour.

    Conventions of the embedding:
    - a Python [str] is a Rocq [string]; a character is read as the code point
      of the same number (0..255);
    - [os.environ] is a finite map from names to values;
    - code that can raise returns a [result]; code that mutates the process
      (module globals, the state file) threads a [process] record;
    - whatever the code asks of the outside world (clock, entropy, file-system
      faults, the event loop, the network) is read from a [conditions] record. *)

From Stdlib Require Import ZArith Lia ZifyBool Ascii String.
From stdpp Require Import gmap strings list.

Local Open Scope string_scope.
Local Open Scope list_scope.

(** ** Python strings *)

Definition code_point (c : ascii) : Z := Z.of_N (N_of_ascii c).

Definition chr (n : Z) : ascii := ascii_of_N (Z.to_N n).

(** [str.isspace] on one character, for code points below 256. *)
Definition isspace (c : ascii) : bool :=
  let n := code_point c in
  ((9 <=? n) && (n <=? 13) || (28 <=? n) && (n <=? 32)
   || (n =? 133) || (n =? 160))%Z.

(** Characters that [str.lower] changes: A-Z and the Latin-1 capitals. *)
Definition isupper (c : ascii) : bool :=
  let n := code_point c in
  ((65 <=? n) && (n <=? 90)
   || (192 <=? n) && (n <=? 222) && negb (n =? 215))%Z.

Definition lower_char (c : ascii) : ascii :=
  if isupper c then chr (code_point c + 32) else c.

Fixpoint lstrip (l : list ascii) : list ascii :=
  match l with
  | [] => []
  | c :: r => if isspace c then lstrip r else l
  end.

Definition rstrip (l : list ascii) : list ascii := rev (lstrip (rev l)).

(** [s.strip()] *)
Definition str_strip (s : string) : string :=
  string_of_list_ascii (rstrip (lstrip (list_ascii_of_string s))).

(** [s.lower()] *)
Definition str_lower (s : string) : string :=
  string_of_list_ascii (map lower_char (list_ascii_of_string s)).

(** Truth value of a [str]: the empty string is false. *)
Definition str_bool (s : string) : bool := negb (String.eqb s "").

(** [v or d] for an optional string [v]: [None] and [""] are both false. *)
Definition or_str (v : option string) (d : string) : string :=
  match v with
  | Some s => if str_bool s then s else d
  | None => d
  end.

(** ** Policy resolver *)

Definition _DEFAULT_ENDPOINT : string :=
  "https://telemetry.namelessnanashi.dev/census".
Definition _PROJECT_NAME : string := "<PROJECT_NAME>".
Definition _OPTOUT_ENV_VAR : string := "<PROJECT_ACRONYM>_TELEMETRY_OPTOUT".
Definition _PERIOD_HOURS : Z := 2.

Definition truthy_tokens : list string := ["1"; "true"; "yes"; "on"; "y"; "t"].
Definition falsy_tokens : list string := ["0"; "false"; "no"; "off"; "n"; "f"].

Definition _env_truthy (v : option string) : bool :=
  let s := str_lower (str_strip (or_str v "")) in
  bool_decide (s ∈ truthy_tokens).

Definition _env_falsy (v : option string) : bool :=
  let s := str_lower (str_strip (or_str v "")) in
  bool_decide (s ∈ falsy_tokens).

Definition _env_opt_out (environ : gmap string string) : bool :=
  if _env_truthy (environ !! _OPTOUT_ENV_VAR)
     || _env_truthy (environ !! "TELEMETRY_OPTOUT")
  then true
  else
    match environ !! "TELEMETRY" with
    | Some tel => if _env_falsy (Some tel) then true else false
    | None => false
    end.

Definition _get_endpoint (environ : gmap string string) : string :=
  or_str (environ !! "TELEMETRY_ENDPOINT") _DEFAULT_ENDPOINT.

Definition _get_project_name : string := _PROJECT_NAME.

(** ** Digits and byte strings *)

Definition hex_digit (n : Z) : ascii :=
  if (n <? 10)%Z then chr (48 + n) else chr (87 + n).

(** The [width] low-order hexadecimal digits of [n], most significant
    first: ['%0<width>x' % n] for [0 <= n < 16^width]. *)
Fixpoint hex_fixed (width : nat) (n : Z) : list ascii :=
  match width with
  | O => []
  | S w => hex_fixed w (n / 16) ++ [hex_digit (n mod 16)]
  end.

(** The [width] low-order decimal digits of [n], zero padded. *)
Fixpoint dec_fixed (width : nat) (n : Z) : list ascii :=
  match width with
  | O => []
  | S w => dec_fixed w (n / 10) ++ [chr (48 + n mod 10)]
  end.

Fixpoint drop_zeros (l : list ascii) : list ascii :=
  match l with
  | [] => []
  | c :: r =>
      match r with
      | [] => l
      | _ :: _ => if Ascii.eqb c "0" then drop_zeros r else l
      end
  end.

(** [str(n)] for an [int] of at most 20 digits. *)
Definition str_int (n : Z) : string :=
  if (n <? 0)%Z
  then String "-" (string_of_list_ascii (drop_zeros (dec_fixed 20 (- n))))
  else string_of_list_ascii (drop_zeros (dec_fixed 20 n)).

(** [s.encode("utf-8")] for code points below 256. *)
Definition utf8_char (c : ascii) : list Z :=
  let n := code_point c in
  if (n <? 128)%Z then [n]
  else [Z.lor 192 (Z.shiftr n 6); Z.lor 128 (Z.land n 63)].

Definition encode_utf8 (s : string) : list Z :=
  flat_map utf8_char (list_ascii_of_string s).

(** ** SHA-256 (FIPS 180-4), as [hashlib.sha256] computes it *)

Module SHA256.

Definition w32 (x : Z) : Z := (x mod 2 ^ 32)%Z.

Definition rotr (n x : Z) : Z :=
  Z.lor (Z.shiftr x n) (w32 (Z.shiftl x (32 - n))).

Definition Ch (x y z : Z) : Z :=
  Z.lxor (Z.land x y) (Z.land (Z.lxor x 4294967295) z).
Definition Maj (x y z : Z) : Z :=
  Z.lxor (Z.lxor (Z.land x y) (Z.land x z)) (Z.land y z).
Definition Sigma0 (x : Z) : Z :=
  Z.lxor (Z.lxor (rotr 2 x) (rotr 13 x)) (rotr 22 x).
Definition Sigma1 (x : Z) : Z :=
  Z.lxor (Z.lxor (rotr 6 x) (rotr 11 x)) (rotr 25 x).
Definition sigma0 (x : Z) : Z :=
  Z.lxor (Z.lxor (rotr 7 x) (rotr 18 x)) (Z.shiftr x 3).
Definition sigma1 (x : Z) : Z :=
  Z.lxor (Z.lxor (rotr 17 x) (rotr 19 x)) (Z.shiftr x 10).

Definition is_prime (n : Z) : bool :=
  (1 <? n)%Z && forallb (fun d => negb (n mod d =? 0)%Z) (seqZ 2 (n - 2)).

(** The first sixty-four primes: 2, 3, 5, ..., 311. *)
Definition primes : list Z :=
  filter (fun n => is_prime n = true) (seqZ 2 310).

(** The integer cube root of [n], sought between [lo] and [hi]. *)
Fixpoint cube_root_between (fuel : nat) (lo hi n : Z) : Z :=
  match fuel with
  | O => lo
  | S f =>
      let mid := ((lo + hi) / 2)%Z in
      if (mid * mid * mid <=? n)%Z
      then cube_root_between f mid hi n
      else cube_root_between f lo mid n
  end.

Definition cube_root (n : Z) : Z := cube_root_between 40 0 (2 ^ 36) n.

(** The round constants: the first 32 bits of the fractional parts of the
    cube roots of the first sixty-four primes. *)
Definition K : list Z :=
  map (fun q => w32 (cube_root (q * 2 ^ 96))) primes.

(** The initial hash value: the first 32 bits of the fractional parts of
    the square roots of the first eight primes. *)
Definition H0 : list Z :=
  map (fun q => w32 (Z.sqrt (q * 2 ^ 64))) (take 8 primes).

(** Big-endian bytes of [n], [width] of them. *)
Fixpoint be_bytes (width : nat) (n : Z) : list Z :=
  match width with
  | O => []
  | S w => be_bytes w (n / 256) ++ [(n mod 256)%Z]
  end.

Definition be_word (bs : list Z) : Z :=
  fold_left (fun acc b => (acc * 256 + b)%Z) bs 0%Z.

(** Message, the byte 0x80, zeros up to 56 modulo 64, the bit length. *)
Definition pad (msg : list Z) : list Z :=
  let n := Z.of_nat (length msg) in
  let zeros := Z.to_nat ((55 - n) mod 64) in
  msg ++ [128%Z] ++ repeat 0%Z zeros ++ be_bytes 8 (8 * n).

Fixpoint chunks (count size : nat) (l : list Z) : list (list Z) :=
  match count with
  | O => []
  | S k => take size l :: chunks k size (drop size l)
  end.

(** The schedule is kept newest first: [w] holds W[t-1], W[t-2], ... *)
Fixpoint extend (steps : nat) (w : list Z) : list Z :=
  match steps with
  | O => w
  | S k =>
      let wt :=
        w32 (sigma1 (nth 1 w 0%Z) + nth 6 w 0%Z
             + sigma0 (nth 14 w 0%Z) + nth 15 w 0%Z) in
      extend k (wt :: w)
  end.

Definition schedule (block : list Z) : list Z :=
  rev (extend 48 (rev (map be_word (chunks 16 4 block)))).

Definition round (st : list Z) (kw : Z * Z) : list Z :=
  match st with
  | [a; b; c; d; e; f; g; h] =>
      let t1 := (h + Sigma1 e + Ch e f g + fst kw + snd kw)%Z in
      let t2 := (Sigma0 a + Maj a b c)%Z in
      [w32 (t1 + t2); a; b; c; w32 (d + t1); e; f; g]
  | _ => st
  end.

Definition compress (h : list Z) (block : list Z) : list Z :=
  let out := fold_left round (combine K (schedule block)) h in
  map (fun p => w32 (fst p + snd p)) (combine h out).

Definition digest_words (msg : list Z) : list Z :=
  let padded := pad msg in
  fold_left compress (chunks (length padded / 64) 64 padded) H0.

(** [hashlib.sha256(msg).hexdigest()] *)
Definition hexdigest (msg : list Z) : string :=
  string_of_list_ascii (flat_map (hex_fixed 8) (digest_words msg)).

End SHA256.

Definition _hash_id (raw : string) : string :=
  SHA256.hexdigest (encode_utf8 raw).

(** ** [datetime]: the proleptic Gregorian calendar of the standard library *)

Record datetime := {
  year : Z; month : Z; day : Z;
  hour : Z; minute : Z; second : Z; microsecond : Z
}.

Definition _MAXORDINAL : Z := 3652059.

Definition _is_leap (y : Z) : bool :=
  ((y mod 4 =? 0) && (negb (y mod 100 =? 0) || (y mod 400 =? 0)))%Z.

Definition _DAYS_IN_MONTH : list Z :=
  [-1; 31; 28; 31; 30; 31; 30; 31; 31; 30; 31; 30; 31]%Z.
Definition _DAYS_BEFORE_MONTH : list Z :=
  [-1; 0; 31; 59; 90; 120; 151; 181; 212; 243; 273; 304; 334]%Z.

Definition _days_before_year (y : Z) : Z :=
  let y := (y - 1)%Z in (y * 365 + y / 4 - y / 100 + y / 400)%Z.

Definition _days_in_month (y m : Z) : Z :=
  if (m =? 2)%Z && _is_leap y then 29%Z
  else nth (Z.to_nat m) _DAYS_IN_MONTH 0%Z.

Definition _days_before_month (y m : Z) : Z :=
  (nth (Z.to_nat m) _DAYS_BEFORE_MONTH 0
   + (if (2 <? m) && _is_leap y then 1 else 0))%Z.

Definition _ymd2ord (y m d : Z) : Z :=
  (_days_before_year y + _days_before_month y m + d)%Z.

(** The last steps of [_ord2ymd]: the month and the day of day number [n]
    (counted from 0) of a year. *)
Definition _month_day (n : Z) (leapyear : bool) : Z * Z :=
  let m := Z.shiftr (n + 50) 5 in
  let preceding :=
    (nth (Z.to_nat m) _DAYS_BEFORE_MONTH 0
     + (if (2 <? m) && leapyear then 1 else 0))%Z in
  if (n <? preceding)%Z
  then
    let m := (m - 1)%Z in
    let preceding :=
      (preceding
       - (nth (Z.to_nat m) _DAYS_IN_MONTH 0
          + (if (m =? 2) && leapyear then 1 else 0)))%Z in
    (m, (n - preceding + 1)%Z)
  else (m, (n - preceding + 1)%Z).

Definition _ord2ymd (n : Z) : Z * Z * Z :=
  let n := (n - 1)%Z in
  let n400 := (n / 146097)%Z in
  let n := (n mod 146097)%Z in
  let y := (n400 * 400 + 1)%Z in
  let n100 := (n / 36524)%Z in
  let n := (n mod 36524)%Z in
  let n4 := (n / 1461)%Z in
  let n := (n mod 1461)%Z in
  let n1 := (n / 365)%Z in
  let n := (n mod 365)%Z in
  let y := (y + n100 * 100 + n4 * 4 + n1)%Z in
  if ((n1 =? 4) || (n100 =? 4))%Z then ((y - 1)%Z, 12%Z, 31%Z)
  else
    let leapyear := ((n1 =? 3) && (negb (n4 =? 24) || (n100 =? 3)))%Z in
    let '(m, d) := _month_day n leapyear in
    (y, m, d).

Definition toordinal (t : datetime) : Z := _ymd2ord (year t) (month t) (day t).

(** A value the [datetime] constructor accepts. *)
Definition valid_datetime (t : datetime) : Prop :=
  (1 <= year t <= 9999 /\ 1 <= month t <= 12
   /\ 1 <= day t <= _days_in_month (year t) (month t)
   /\ 0 <= hour t < 24 /\ 0 <= minute t < 60 /\ 0 <= second t < 60
   /\ 0 <= microsecond t < 1000000)%Z.

(** Durations ([timedelta]) are counted in microseconds. *)
Definition US_PER_SECOND : Z := 1000000.
Definition US_PER_HOUR : Z := 3600000000.
Definition US_PER_DAY : Z := 86400000000.

Definition timedelta_hours (h : Z) : Z := (h * US_PER_HOUR)%Z.

(** Microseconds since the start of ordinal day 0. *)
Definition to_microseconds (t : datetime) : Z :=
  (toordinal t * US_PER_DAY
   + ((hour t * 60 + minute t) * 60 + second t) * US_PER_SECOND
   + microsecond t)%Z.

(** [t + delta]: [None] stands for the [OverflowError] of a date outside
    years 1..9999. *)
Definition datetime_add (t : datetime) (delta : Z) : option datetime :=
  let total := (to_microseconds t + delta)%Z in
  let days := (total / US_PER_DAY)%Z in
  let rem := (total mod US_PER_DAY)%Z in
  let secs := (rem / US_PER_SECOND)%Z in
  if ((0 <? days) && (days <=? _MAXORDINAL))%Z
  then
    let '(y, m, d) := _ord2ymd days in
    Some {| year := y; month := m; day := d;
            hour := (secs / 3600)%Z; minute := (secs mod 3600 / 60)%Z;
            second := (secs mod 3600 mod 60)%Z;
            microsecond := (rem mod US_PER_SECOND)%Z |}
  else None.

(** [a - b] *)
Definition datetime_sub (a b : datetime) : Z :=
  ((toordinal a - toordinal b) * US_PER_DAY
   + (((hour a * 60 + minute a) * 60 + second a)
      - ((hour b * 60 + minute b) * 60 + second b)) * US_PER_SECOND
   + (microsecond a - microsecond b))%Z.

Fixpoint lex_le (a b : list Z) : bool :=
  match a, b with
  | x :: a', y :: b' =>
      if (x <? y)%Z then true else if (y <? x)%Z then false else lex_le a' b'
  | _, _ => true
  end.

Definition fields (t : datetime) : list Z :=
  [year t; month t; day t; hour t; minute t; second t; microsecond t].

(** [a <= b] *)
Definition datetime_le (a b : datetime) : bool := lex_le (fields a) (fields b).

(** [t.replace(minute=0, second=0, microsecond=0)] *)
Definition replace_to_hour (t : datetime) : datetime :=
  {| year := year t; month := month t; day := day t; hour := hour t;
     minute := 0; second := 0; microsecond := 0 |}.

(** [t.strftime("%Y-%m-%d")] *)
Definition strftime_Ymd (t : datetime) : string :=
  str_int (year t) ++ "-" ++ string_of_list_ascii (dec_fixed 2 (month t))
  ++ "-" ++ string_of_list_ascii (dec_fixed 2 (day t)).

(** ** Scheduling arithmetic *)

(** The delay until the next even UTC hour, in microseconds (the source
    returns the same duration as a float number of seconds). *)
Definition _seconds_until_next_even_utc_hour (now : datetime) : option Z :=
  let base := replace_to_hour now in
  let nxt :=
    if datetime_le now base
    then
      if (hour base mod 2 =? 0)%Z
      then datetime_add base (timedelta_hours 2)
      else datetime_add base (timedelta_hours 1)
    else
      if (hour base mod 2 =? 0)%Z
      then datetime_add base (timedelta_hours 2)
      else datetime_add base (timedelta_hours 1) in
  match nxt with
  | Some nxt =>
      let delta := datetime_sub nxt now in
      Some (Z.max (1 * US_PER_SECOND) delta)
  | None => None
  end.

(** ** Exceptions, the process and the outside world *)

(** The subclasses of [Exception] that the modelled calls raise;
    [HTTPError] is a subclass of [URLError]. *)
Inductive exception :=
| ValueError | OSError | RuntimeError | OverflowError
| URLError | HTTPError (status : Z).

(** What can propagate out of a call: an [Exception], or
    [asyncio.CancelledError], which derives from [BaseException] and is
    not caught by [except Exception]. *)
Inductive raised := Exc (e : exception) | CancelledError.

Inductive result (A : Type) := Ok (a : A) | Raise (r : raised).
Arguments Ok {A} a.
Arguments Raise {A} r.

Definition is_URLError (e : exception) : bool :=
  match e with
  | URLError | HTTPError _ => true
  | _ => false
  end.

Inductive level := DEBUG | INFO.
Inductive task := SendOnce | PeriodicLoop.

(** What the process does that an observer can see. *)
Inductive event :=
| Log (l : level) (msg : string)
| Dispatch (url : string) (data : list Z) (timeout : Z)
| Scheduled (t : task)
| Slept (delay : Z).

(** [asyncio.get_event_loop()] raises, or returns a loop that is or is not
    running. *)
Inductive loop_status := NoEventLoop | LoopIdle | LoopRunning.

(** How a suspended coroutine is resumed. *)
Inductive signal := Resumed | Cancel.

Inductive response := Responds (status : Z) | Fails (e : exception).

Record fs_faults := {
  read_fails : bool;
  makedirs_fails : bool;
  open_fails : bool;
  write_fails : bool
}.

Record conditions := {
  environ : gmap string string;
  module_state_file : string;
  utcnow : datetime;
  urandom : nat -> Z;
  faults : fs_faults;
  event_loop : loop_status;
  urlopen : string -> list Z -> Z -> response;
  in_flight : signal;
  (* when the send is cancelled in flight: whether the executor had
     already started its job *)
  job_started : bool
}.

Record process := {
  files : gmap string string;
  _HAS_SCHEDULED_SEND : bool;
  _HAS_LOGGED_SCHEDULE : bool;
  _HAS_LOGGED_SKIP : bool;
  _HAS_LOGGED_NO_PROJECT : bool;
  draws : nat;
  trace : list event
}.

Definition with_files (f : gmap string string) (p : process) : process :=
  {| files := f;
     _HAS_SCHEDULED_SEND := _HAS_SCHEDULED_SEND p;
     _HAS_LOGGED_SCHEDULE := _HAS_LOGGED_SCHEDULE p;
     _HAS_LOGGED_SKIP := _HAS_LOGGED_SKIP p;
     _HAS_LOGGED_NO_PROJECT := _HAS_LOGGED_NO_PROJECT p;
     draws := draws p; trace := trace p |}.

Definition with_scheduled_send (b : bool) (p : process) : process :=
  {| files := files p;
     _HAS_SCHEDULED_SEND := b;
     _HAS_LOGGED_SCHEDULE := _HAS_LOGGED_SCHEDULE p;
     _HAS_LOGGED_SKIP := _HAS_LOGGED_SKIP p;
     _HAS_LOGGED_NO_PROJECT := _HAS_LOGGED_NO_PROJECT p;
     draws := draws p; trace := trace p |}.

Definition with_logged_schedule (b : bool) (p : process) : process :=
  {| files := files p;
     _HAS_SCHEDULED_SEND := _HAS_SCHEDULED_SEND p;
     _HAS_LOGGED_SCHEDULE := b;
     _HAS_LOGGED_SKIP := _HAS_LOGGED_SKIP p;
     _HAS_LOGGED_NO_PROJECT := _HAS_LOGGED_NO_PROJECT p;
     draws := draws p; trace := trace p |}.

Definition with_logged_skip (b : bool) (p : process) : process :=
  {| files := files p;
     _HAS_SCHEDULED_SEND := _HAS_SCHEDULED_SEND p;
     _HAS_LOGGED_SCHEDULE := _HAS_LOGGED_SCHEDULE p;
     _HAS_LOGGED_SKIP := b;
     _HAS_LOGGED_NO_PROJECT := _HAS_LOGGED_NO_PROJECT p;
     draws := draws p; trace := trace p |}.

Definition with_logged_no_project (b : bool) (p : process) : process :=
  {| files := files p;
     _HAS_SCHEDULED_SEND := _HAS_SCHEDULED_SEND p;
     _HAS_LOGGED_SCHEDULE := _HAS_LOGGED_SCHEDULE p;
     _HAS_LOGGED_SKIP := _HAS_LOGGED_SKIP p;
     _HAS_LOGGED_NO_PROJECT := b;
     draws := draws p; trace := trace p |}.

Definition with_draws (n : nat) (p : process) : process :=
  {| files := files p;
     _HAS_SCHEDULED_SEND := _HAS_SCHEDULED_SEND p;
     _HAS_LOGGED_SCHEDULE := _HAS_LOGGED_SCHEDULE p;
     _HAS_LOGGED_SKIP := _HAS_LOGGED_SKIP p;
     _HAS_LOGGED_NO_PROJECT := _HAS_LOGGED_NO_PROJECT p;
     draws := n; trace := trace p |}.

Definition with_trace (t : list event) (p : process) : process :=
  {| files := files p;
     _HAS_SCHEDULED_SEND := _HAS_SCHEDULED_SEND p;
     _HAS_LOGGED_SCHEDULE := _HAS_LOGGED_SCHEDULE p;
     _HAS_LOGGED_SKIP := _HAS_LOGGED_SKIP p;
     _HAS_LOGGED_NO_PROJECT := _HAS_LOGGED_NO_PROJECT p;
     draws := draws p; trace := t |}.

(** The process as the module is imported: no flag set, nothing done. *)
Definition fresh_process (fs : gmap string string) : process :=
  {| files := fs;
     _HAS_SCHEDULED_SEND := false; _HAS_LOGGED_SCHEDULE := false;
     _HAS_LOGGED_SKIP := false; _HAS_LOGGED_NO_PROJECT := false;
     draws := 0; trace := [] |}.

(** *** Computations over the process that may raise *)

Definition M (A : Type) : Type := process -> result A * process.

Definition ret {A} (a : A) : M A := fun p => (Ok a, p).

Definition bind {A B} (m : M A) (k : A -> M B) : M B :=
  fun p =>
    match m p with
    | (Ok a, p') => k a p'
    | (Raise r, p') => (Raise r, p')
    end.

Definition raise {A} (e : exception) : M A := fun p => (Raise (Exc e), p).

(** [try: m  except Exception as e: h e] *)
Definition try_except {A} (m : M A) (h : exception -> M A) : M A :=
  fun p =>
    match m p with
    | (Raise (Exc e), p') => h e p'
    | other => other
    end.

Declare Scope py_scope.
Delimit Scope py_scope with py.
Bind Scope py_scope with M.
Notation "x <- m ;; k" := (bind m (fun x => k))
  (at level 100, m at next level, right associativity) : py_scope.
Notation "m ;; k" := (bind m (fun _ => k))
  (at level 100, right associativity) : py_scope.
Local Open Scope py_scope.

Definition emit (e : event) : M unit :=
  fun p => (Ok tt, with_trace (trace p ++ [e]) p).

(** [_log.debug(...)] and [_log.info(...)] inside their own [try]. *)
Definition log (l : level) (msg : string) : M unit := emit (Log l msg).

(** ** Identity store *)

Definition ends_with_sep (s : string) : bool :=
  match rev (list_ascii_of_string s) with
  | c :: _ => Ascii.eqb c "/"
  | [] => false
  end.

(** [os.path.join(a, b)] for a relative [b] (POSIX). *)
Definition os_path_join (a b : string) : string :=
  if negb (str_bool a) || ends_with_sep a then a ++ b else a ++ "/" ++ b.

Definition _get_state_file (c : conditions) : M string :=
  let env_file := environ c !! "TELEMETRY_STATE_FILE" in
  if str_bool (or_str env_file "")
  then
    log DEBUG "telemetry state file (TELEMETRY_STATE_FILE) -> %s" ;;
    ret (or_str env_file "")
  else
    let env_dir := environ c !! "TELEMETRY_STATE_DIR" in
    if str_bool (or_str env_dir "")
    then
      let p := os_path_join (or_str env_dir "") ".telemetry_id" in
      log DEBUG "telemetry state dir (TELEMETRY_STATE_DIR) -> %s" ;;
      ret p
    else ret (module_state_file c).

(** [uuid.UUID(bytes=os.urandom(16), version=4)] as an integer. *)
Definition uuid4_int (r : Z) : Z :=
  let i := (r mod 2 ^ 128)%Z in
  let i := Z.land i (Z.lnot (Z.shiftl 0xc000 48)) in
  let i := Z.lor i (Z.shiftl 0x8000 48) in
  let i := Z.land i (Z.lnot (Z.shiftl 0xf000 64)) in
  Z.lor i (Z.shiftl 4 76).

(** [str(u)]: 32 hexadecimal digits grouped 8-4-4-4-12. *)
Definition uuid_str (i : Z) : string :=
  let h := hex_fixed 32 i in
  string_of_list_ascii
    (take 8 h ++ ["-"%char] ++ take 4 (drop 8 h) ++ ["-"%char]
     ++ take 4 (drop 12 h) ++ ["-"%char] ++ take 4 (drop 16 h)
     ++ ["-"%char] ++ drop 20 h).

(** The identifier made from the [n]-th draw of entropy. *)
Definition nth_uuid (c : conditions) (n : nat) : string :=
  uuid_str (uuid4_int (urandom c n)).

(** [str(uuid.uuid4())]: consumes one draw. *)
Definition uuid4 (c : conditions) : M string :=
  fun p => (Ok (nth_uuid c (draws p)), with_draws (S (draws p)) p).

Definition os_path_exists (path : string) : M bool :=
  fun p => (Ok (bool_decide (is_Some (files p !! path))), p).

Definition CR : ascii := chr 13.
Definition LF : ascii := chr 10.

(** Text mode with universal newlines ([newline=None], the default of
    [open]): on input the line ends [\r\n] and [\r] are translated to
    [\n].  [after_cr] says that the previous character was a [\r]. *)
Fixpoint newlines (after_cr : bool) (l : list ascii) : list ascii :=
  match l with
  | [] => []
  | c :: rest =>
      if Ascii.eqb c CR then LF :: newlines true rest
      else if Ascii.eqb c LF
      then if after_cr then newlines false rest else LF :: newlines false rest
      else c :: newlines false rest
  end.

Definition universal_newlines (s : string) : string :=
  string_of_list_ascii (newlines false (list_ascii_of_string s)).

(** [open(path, "r", encoding="utf-8").read()]: the text of the file with
    its line ends translated.  A file that cannot be opened, read or
    decoded is a read fault. *)
Definition read_text (c : conditions) (path : string) : M string :=
  fun p =>
    if read_fails (faults c) then (Raise (Exc OSError), p)
    else
      match files p !! path with
      | Some s => (Ok (universal_newlines s), p)
      | None => (Raise (Exc OSError), p)
      end.

(** [os.makedirs(os.path.dirname(path) or ".", exist_ok=True)];
    directories are not part of the modelled file system. *)
Definition makedirs_parent (c : conditions) (path : string) : M unit :=
  fun p =>
    if makedirs_fails (faults c) then (Raise (Exc OSError), p) else (Ok tt, p).

(** [with open(path, "w") as fh: fh.write(s)]: opening truncates the file,
    so a write that fails after it leaves the file empty.  On output text
    mode changes [\n] only, to the line separator of the platform, which
    is [\n] itself on POSIX. *)
Definition write_text (c : conditions) (path s : string) : M unit :=
  fun p =>
    if open_fails (faults c) then (Raise (Exc OSError), p)
    else if write_fails (faults c)
    then (Raise (Exc OSError), with_files (<[path := ""]> (files p)) p)
    else (Ok tt, with_files (<[path := s]> (files p)) p).

Definition _ensure_instance_id (c : conditions) : M string :=
  path <- _get_state_file c ;;
  try_except
    (present <- os_path_exists path ;;
     found <-
       (if present
        then
          content <- read_text c path ;;
          let raw := str_strip content in
          if str_bool raw
          then log DEBUG "telemetry id file exists at %s" ;; ret (Some raw)
          else ret None
        else ret None) ;;
     match found with
     | Some raw => ret raw
     | None =>
         new <- uuid4 c ;;
         try_except (makedirs_parent c path)
           (fun _ => log DEBUG "telemetry could not create parent dir for %s") ;;
         write_text c path new ;;
         log DEBUG "telemetry created id file at %s" ;;
         ret new
     end)
    (fun _ =>
       log DEBUG "telemetry failed to persist id file at %s; using ephemeral id" ;;
       uuid4 c).

(** ** Payload builder *)

Inductive json_value := JStr (s : string) | JInt (n : Z).

(** A [dict] with string keys, in insertion order. *)
Definition json_object : Type := list (string * json_value).

Definition _make_payload (c : conditions) : M json_object :=
  rid <- _ensure_instance_id c ;;
  ret [ ("id", JStr (_hash_id rid));
        ("date", JStr (strftime_Ymd (utcnow c)));
        ("projectname", JStr _get_project_name);
        ("project", JStr _get_project_name);
        ("count", JInt 1) ].

Definition quote_char : ascii := chr 34.
Definition backslash : ascii := chr 92.

(** [json.dumps] of a string with [ensure_ascii=True]. *)
Definition json_escape_char (c : ascii) : list ascii :=
  let n := code_point c in
  if (n =? 34)%Z then [backslash; quote_char]
  else if (n =? 92)%Z then [backslash; backslash]
  else if (n =? 8)%Z then [backslash; "b"%char]
  else if (n =? 12)%Z then [backslash; "f"%char]
  else if (n =? 10)%Z then [backslash; "n"%char]
  else if (n =? 13)%Z then [backslash; "r"%char]
  else if (n =? 9)%Z then [backslash; "t"%char]
  else if ((32 <=? n) && (n <=? 126))%Z then [c]
  else backslash :: "u"%char :: hex_fixed 4 n.

Definition json_string (s : string) : string :=
  string_of_list_ascii
    (quote_char :: flat_map json_escape_char (list_ascii_of_string s)
     ++ [quote_char]).

Definition json_value_dumps (v : json_value) : string :=
  match v with
  | JStr s => json_string s
  | JInt n => str_int n
  end.

Fixpoint json_items (item_sep key_sep : string) (d : json_object) : string :=
  match d with
  | [] => ""
  | (k, v) :: rest =>
      json_string k ++ key_sep ++ json_value_dumps v
      ++ match rest with
         | [] => ""
         | _ :: _ => item_sep ++ json_items item_sep key_sep rest
         end
  end.

(** [json.dumps(d, separators=(item_sep, key_sep))] *)
Definition json_dumps (item_sep key_sep : string) (d : json_object) : string :=
  "{" ++ json_items item_sep key_sep d ++ "}".

(** ** Transport *)

(** [urllib.parse.unwrap] *)
Definition unwrap (url : string) : string :=
  let u := str_strip url in
  let u :=
    if String.prefix "<" u
       && match rev (list_ascii_of_string u) with
          | c :: _ => Ascii.eqb c ">"
          | [] => false
          end
    then str_strip (String.substring 1 (String.length u - 2) u)
    else u in
  if String.prefix "URL:" u
  then str_strip (String.substring 4 (String.length u - 4) u)
  else u.

(** [urllib.parse._splittype] finds a scheme: a non-empty run of characters
    other than [/] and [:], ended by a [:]. *)
Fixpoint scheme_ends (seen : bool) (l : list ascii) : bool :=
  match l with
  | [] => false
  | c :: r =>
      if Ascii.eqb c ":" then seen
      else if Ascii.eqb c "/" then false
      else scheme_ends true r
  end.

(** What follows the first [#] of [l]. *)
Fixpoint after_hash (l : list ascii) : option (list ascii) :=
  match l with
  | [] => None
  | c :: r => if Ascii.eqb c "#" then Some r else after_hash r
  end.

(** [urllib.parse._splittag], first component: [url.rpartition('#')] keeps
    what comes before the last [#]; a URL without [#] is kept whole. *)
Definition _splittag (url : string) : string :=
  match after_hash (rev (list_ascii_of_string url)) with
  | Some r => string_of_list_ascii (rev r)
  | None => url
  end.

(** The setter of [Request.full_url] unwraps the URL and cuts its fragment;
    [Request._parse] then looks for the scheme in what is left. *)
Definition has_scheme (url : string) : bool :=
  scheme_ends false (list_ascii_of_string (_splittag (unwrap url))).

(** [urllib.request.Request(url, data=..., headers=..., method="POST")]:
    the constructor raises [ValueError] (unknown url type) for a URL in
    which it finds no scheme. *)
Definition Request (url : string) : M unit :=
  if has_scheme url then ret tt else raise ValueError.

(** [urllib.request.urlopen(req, timeout=timeout)]: the request goes out,
    and the network answers or fails. *)
Definition urlopen_call (c : conditions) (url : string) (data : list Z)
    (timeout : Z) : M Z :=
  emit (Dispatch url data timeout) ;;
  match urlopen c url data timeout with
  | Responds status => ret status
  | Fails e => raise e
  end.

(** The default [timeout=2.0], in microseconds. *)
Definition DEFAULT_TIMEOUT : Z := (2 * US_PER_SECOND)%Z.

Definition _post_sync (c : conditions) (url : string) (data : list Z)
    (timeout : Z) : M unit :=
  Request url ;;
  try_except
    (_status <- urlopen_call c url data timeout ;; ret tt)
    (fun e => if is_URLError e then ret tt else ret tt).

(** ** Sending once *)

(** [asyncio.get_running_loop()] *)
Definition get_running_loop (c : conditions) : M unit :=
  match event_loop c with
  | LoopRunning => ret tt
  | _ => raise RuntimeError
  end.

(** [await loop.run_in_executor(None, job)]: the job is queued for a
    worker thread, and the awaiting coroutine gets its outcome unless it is
    cancelled while it waits.  A cancellation that finds the job still
    queued cancels the job too, and it never runs; a job that had started
    runs to its end and its outcome is dropped. *)
Definition run_in_executor (c : conditions) (job : M unit) : M unit :=
  fun p =>
    match in_flight c with
    | Resumed => job p
    | Cancel =>
        if job_started c
        then (Raise CancelledError, snd (job p))
        else (Raise CancelledError, p)
    end.


Definition maybe_send_telemetry_async (c : conditions) : M unit :=
  let endpoint := _get_endpoint (environ c) in
  if negb (str_bool endpoint) || _env_opt_out (environ c)
  then
    fun p =>
      if negb (_HAS_LOGGED_SKIP p)
      then
        log INFO "[telemetry] skipped (endpoint_configured=%s, opted_out=%s)"
          (with_logged_skip true p)
      else
        log DEBUG "telemetry skipped (endpoint=%s, opted_out=%s)" p
  else
    let project := _get_project_name in
    if negb (str_bool project)
    then
      fun p =>
        if negb (_HAS_LOGGED_NO_PROJECT p)
        then
          log INFO "[telemetry] skipped (missing PROJECT_NAME)"
            (with_logged_no_project true p)
        else log DEBUG "telemetry skipped (missing PROJECT_NAME)" p
    else
      payload <- _make_payload c ;;
      let data := encode_utf8 (json_dumps "," ":" payload) in
      try_except
        (get_running_loop c ;;
         log DEBUG "telemetry POST -> %s (async, %d bytes)" ;;
         run_in_executor c (_post_sync c endpoint data DEFAULT_TIMEOUT))
        (fun _ => ret tt).

(** ** The periodic loop *)

(** [await asyncio.sleep(delay)]: a suspension point. *)
Definition asyncio_sleep (delay : Z) (s : signal) : M unit :=
  emit (Slept delay) ;;
  match s with
  | Resumed => ret tt
  | Cancel => fun p => (Raise CancelledError, p)
  end.

(** What one iteration of [while True] meets: the world when the iteration
    starts, how its sleep ends, the world at wake-up, and how the backoff
    sleep ends if there is one. *)
Record tick := {
  at_start : conditions;
  sleep_ends : signal;
  at_wake : conditions;
  backoff_ends : signal
}.

(** The body of the [try] statement. *)
Definition tick_body (t : tick) : M unit :=
  sleep_s <-
    match _seconds_until_next_even_utc_hour (utcnow (at_start t)) with
    | Some d => ret d
    | None => raise OverflowError
    end ;;
  asyncio_sleep sleep_s (sleep_ends t) ;;
  if _env_opt_out (environ (at_wake t))
  then ret tt
  else maybe_send_telemetry_async (at_wake t).

Inductive loop_outcome :=
| Looping                     (* the next iteration starts *)
| Returned                    (* the coroutine returned *)
| Propagated (r : raised).    (* an exception left the coroutine *)

Definition BACKOFF : Z := (60 * US_PER_SECOND)%Z.

(** One pass through the [while True] body with its handlers. *)
Definition loop_iteration (t : tick) (p : process) : loop_outcome * process :=
  match tick_body t p with
  | (Ok _, p') => (Looping, p')
  | (Raise CancelledError, p') => (Returned, p')
  | (Raise (Exc _), p') =>
      match asyncio_sleep BACKOFF (backoff_ends t) p' with
      | (Ok _, p'') => (Looping, p'')
      | (Raise (Exc _), p'') => (Returned, p'')
      | (Raise CancelledError, p'') => (Propagated CancelledError, p'')
      end
  end.

(** The loop run against the iterations the world lets it make; [Looping]
    means it is still running after the last of them. *)
Fixpoint _periodic_ping_loop (ts : list tick) (p : process)
    : loop_outcome * process :=
  match ts with
  | [] => (Looping, p)
  | t :: rest =>
      match loop_iteration t p with
      | (Looping, p') => _periodic_ping_loop rest p'
      | stopped => stopped
      end
  end.

(** ** Starting in the background *)

(** [asyncio.get_event_loop()] followed by [loop.is_running()]. *)
Definition get_event_loop_is_running (c : conditions) : M bool :=
  match event_loop c with
  | NoEventLoop => raise RuntimeError
  | LoopIdle => ret false
  | LoopRunning => ret true
  end.

(** [asyncio.ensure_future(coro)] *)
Definition ensure_future (t : task) : M unit := emit (Scheduled t).

Definition maybe_send_telemetry_background (c : conditions) : M unit :=
  fun p =>
    if _HAS_SCHEDULED_SEND p then (Ok tt, p)
    else
      (try_except
         (_path <- _get_state_file c ;;
          _id <- _ensure_instance_id c ;;
          log INFO "[telemetry] initialized state file at %s")
         (fun _ => ret tt) ;;
       try_except
         (running <- get_event_loop_is_running c ;;
          if running
          then
            (fun q =>
               if negb (_HAS_LOGGED_SCHEDULE q)
               then
                 log INFO
                   "[telemetry] scheduling immediate send and 2h periodic loop (UTC aligned)"
                   (with_logged_schedule true q)
               else
                 log DEBUG "telemetry scheduling immediate send + periodic loop"
                   q) ;;
            ensure_future SendOnce ;;
            try_except (ensure_future PeriodicLoop) (fun _ => ret tt)
          else ret tt)
         (fun _ =>
            try_except
              (payload <- _make_payload c ;;
               _post_sync c (_get_endpoint (environ c))
                 (encode_utf8 (json_dumps ", " ": " payload)) DEFAULT_TIMEOUT)
              (fun _ => ret tt)))
        (with_scheduled_send true p).

(** ** The policy in the words of the specification

    These definitions follow the specification, not the code: a value is
    trimmed, then matched against a token set without regard to case. *)

Definition spaces (l : list ascii) : Prop := Forall (fun c => isspace c = true) l.

(** [core] is [s] without its leading and trailing whitespace. *)
Definition trimmed_to (s core : list ascii) : Prop :=
  exists l r,
    s = l ++ core ++ r /\ spaces l /\ spaces r
    /\ (forall c rest, core = c :: rest -> isspace c = false)
    /\ (forall c front, core = front ++ [c] -> isspace c = false).

(** Two characters that are equal or differ by case only. *)
Definition same_letter (a b : ascii) : Prop :=
  a = b
  \/ (isupper a = true /\ code_point b = (code_point a + 32)%Z)
  \/ (isupper b = true /\ code_point a = (code_point b + 32)%Z).

(** The value is set and, once trimmed, is one of [tokens] up to case. *)
Definition spec_matches (tokens : list string) (v : option string) : Prop :=
  exists s core tok,
    v = Some s
    /\ trimmed_to (list_ascii_of_string s) core
    /\ tok ∈ tokens
    /\ Forall2 same_letter core (list_ascii_of_string tok).

Definition spec_truthy : option string -> Prop := spec_matches truthy_tokens.
Definition spec_falsy : option string -> Prop := spec_matches falsy_tokens.

(** ** Concrete worlds for the examples *)

Definition no_faults : fs_faults :=
  {| read_fails := false; makedirs_fails := false;
     open_fails := false; write_fails := false |}.

Definition at_2024_01_01 (h mi s : Z) : datetime :=
  {| year := 2024; month := 1; day := 1;
     hour := h; minute := mi; second := s; microsecond := 0 |}.

(** A healthy host: the given environment and event loop, a working file
    system, a server that answers 200. *)
Definition host (env : gmap string string) (loop : loop_status) : conditions :=
  {| environ := env;
     module_state_file := "/srv/app/.telemetry_id";
     utcnow := at_2024_01_01 1 30 0;
     urandom := fun n => (Z.of_nat n * 0x9e3779b97f4a7c15f39cc0605cedc835 + 1)%Z;
     faults := no_faults;
     event_loop := loop;
     urlopen := fun _ _ _ => Responds 200;
     in_flight := Resumed;
     job_started := true |}.

Definition is_dispatch (e : event) : bool :=
  match e with
  | Dispatch _ _ _ => true
  | _ => false
  end.

Definition dispatched_to (e : event) : option string :=
  match e with
  | Dispatch url _ _ => Some url
  | _ => None
  end.

(** ** The life of a process

    The module's code runs when the host calls the background entry point,
    when a scheduled send runs, and when the scheduled loop makes an
    iteration; a process lifetime is any sequence of these. *)

Inductive action :=
| StartBackground (c : conditions)
| RunSend (c : conditions)
| RunIteration (t : tick).

Definition perform (p : process) (a : action) : process :=
  match a with
  | StartBackground c => snd (maybe_send_telemetry_background c p)
  | RunSend c => snd (maybe_send_telemetry_async c p)
  | RunIteration t => snd (loop_iteration t p)
  end.

Definition lifetime (acts : list action) (p : process) : process :=
  fold_left perform acts p.

Definition is_loop_start (e : event) : bool :=
  match e with
  | Scheduled PeriodicLoop => true
  | _ => false
  end.

Definition is_scheduling (e : event) : bool :=
  match e with
  | Scheduled _ => true
  | _ => false
  end.

(** How many times a periodic loop was started. *)
Definition loops_started (tr : list event) : nat :=
  length (filter (fun e => is_loop_start e = true) tr).

Definition is_start (a : action) : bool :=
  match a with
  | StartBackground _ => true
  | _ => false
  end.

(** A cancellation reaches the iteration at one of its suspension points. *)
Definition cancelled (t : tick) : Prop :=
  sleep_ends t = Cancel \/ in_flight (at_wake t) = Cancel
  \/ backoff_ends t = Cancel.

(** ** Reading the payload *)

Definition is_hex_char (c : ascii) : bool :=
  let n := code_point c in
  ((48 <=? n) && (n <=? 57) || (97 <=? n) && (n <=? 102))%Z.

Definition is_digit_char (c : ascii) : bool :=
  let n := code_point c in ((48 <=? n) && (n <=? 57))%Z.

(** The number that a run of decimal digits writes. *)
Definition dec_value (l : list ascii) : Z :=
  fold_left (fun acc c => (acc * 10 + (code_point c - 48))%Z) l 0%Z.

(** [needle] is a substring of [hay]. *)
Definition occurs_in (needle hay : string) : Prop :=
  exists pre post,
    list_ascii_of_string hay
    = pre ++ list_ascii_of_string needle ++ post.

Definition hyphens (l : list ascii) : nat :=
  length (filter (fun c => c = "-"%char) l).

(** ** Notions used by the proofs *)

Definition lowercase_token (tok : string) : Prop :=
  Forall (fun t => isupper t = false) (list_ascii_of_string tok).

Definition unscheduled (e : event) : Prop := is_scheduling e = false.

(** The state file can be read, opened and written. *)
Definition file_system_works (c : conditions) : Prop :=
  read_fails (faults c) = false /\ open_fails (faults c) = false
  /\ write_fails (faults c) = false.

(** [path] is the state file under [c], and [p] has a file there. *)
Definition state_file_present (c : conditions) (p : process) : Prop :=
  exists path,
    (forall q, fst (_get_state_file c q) = Ok path)
    /\ is_Some (files p !! path).

(** From [p] to [p']: the start guard is untouched, nothing was scheduled,
    and no file was removed. *)
Definition calm (p p' : process) : Prop :=
  _HAS_SCHEDULED_SEND p' = _HAS_SCHEDULED_SEND p
  /\ (exists evs, trace p' = trace p ++ evs /\ Forall unscheduled evs)
  /\ (forall path, is_Some (files p !! path) -> is_Some (files p' !! path)).

Definition calm_M {A} (m : M A) : Prop := forall p, calm p (snd (m p)).

(** No cancellation comes out of [m]. *)
Definition uncancelled {A} (m : M A) : Prop :=
  forall p, fst (m p) <> Raise CancelledError.

(** The check that the month tables of year [y] are sound at month [m]. *)
Definition month_table_ok (y m : Z) : bool :=
  ((28 <=? _days_in_month y m) && (_days_in_month y m <=? 31)
   && (0 <=? _days_before_month y m)
   && (_days_before_month y m + _days_in_month y m
       <=? 365 + (if _is_leap y then 1 else 0)))%Z.

(** The check that [_month_day] is right on day number [r] of year [y]. *)
Definition month_day_ok (y r : Z) : bool :=
  let '(m, d) := _month_day r (_is_leap y) in
  ((1 <=? m) && (m <=? 12) && (1 <=? d) && (d <=? _days_in_month y m)
   && (_days_before_month y m + d =? r + 1))%Z.


(** ** The version file *)

(** [_get_version()]; [vf] is the path of the [VERSION] file, which the
    module computes from its own location. *)
Definition _get_version (c : conditions) (vf : string)
    : M (option string) :=
  try_except
    (present <- os_path_exists vf ;;
     if present
     then content <- read_text c vf ;; ret (Some (str_strip content))
     else ret None)
    (fun _ => ret None).

(** ** Notions used by the further properties *)

(** An environment value that the module treats as not given. *)
Definition unset_or_empty (v : option string) : Prop :=
  v = None \/ v = Some "".

Definition is_log (e : event) : bool :=
  match e with
  | Log _ _ => true
  | _ => false
  end.


(** The four module flags are the same in [p] and [p']. *)
Definition same_flags (p p' : process) : Prop :=
  _HAS_SCHEDULED_SEND p' = _HAS_SCHEDULED_SEND p
  /\ _HAS_LOGGED_SCHEDULE p' = _HAS_LOGGED_SCHEDULE p
  /\ _HAS_LOGGED_SKIP p' = _HAS_LOGGED_SKIP p
  /\ _HAS_LOGGED_NO_PROJECT p' = _HAS_LOGGED_NO_PROJECT p.

(** From [p] to [p'] nothing happened but logging, drawing identifiers and
    writing the file at [path]. *)
Definition store_step (path : string) (p p' : process) : Prop :=
  same_flags p p'
  /\ (exists evs,
        trace p' = trace p ++ evs /\ Forall (fun e => is_log e = true) evs)
  /\ (forall other, other <> path -> files p' !! other = files p !! other)
  /\ draws p <= draws p' <= draws p + 2.

(** The requests that a trace holds. *)
Definition dispatches (tr : list event) : list event :=
  filter (fun e => is_dispatch e = true) tr.


(** Every file of [p] whose content is usable as an identifier (not blank
    once trimmed) is in [p'] with the same content. *)
Definition keeps_identity (p p' : process) : Prop :=
  forall path content,
    files p !! path = Some content -> str_strip content <> "" ->
    files p' !! path = Some content.

(** Every run of [m] takes the process along [R]. *)
Definition moves (R : process -> process -> Prop) {A} (m : M A) : Prop :=
  forall p, R p (snd (m p)).

(** * Properties *)

(** ** Strings *)

Lemma string_of_list_inj (a b : list ascii) :
  string_of_list_ascii a = string_of_list_ascii b -> a = b.
Proof.
  intros H.
  rewrite <- (list_ascii_of_string_of_list_ascii a),
          <- (list_ascii_of_string_of_list_ascii b).
  now rewrite H.
Qed.

Lemma lstrip_spaces_app (l x : list ascii) :
  spaces l -> lstrip (l ++ x) = lstrip x.
Proof.
  induction 1 as [|c l Hc _ IH]; simpl; [reflexivity|].
  now rewrite Hc.
Qed.

Lemma lstrip_spaces (l : list ascii) : spaces l -> lstrip l = [].
Proof.
  intros H. rewrite <- (app_nil_r l). now rewrite lstrip_spaces_app.
Qed.

Lemma lstrip_head (c : ascii) (l : list ascii) :
  isspace c = false -> lstrip (c :: l) = c :: l.
Proof. intros H. simpl. now rewrite H. Qed.

(** What [lstrip] removes is whitespace, and what it keeps does not start
    with whitespace. *)
Lemma lstrip_split (s : list ascii) :
  exists l, s = l ++ lstrip s /\ spaces l
            /\ forall c rest, lstrip s = c :: rest -> isspace c = false.
Proof.
  induction s as [|c s (l & Hs & Hl & Hh)].
  - exists []. repeat split; [constructor | discriminate].
  - simpl. destruct (isspace c) eqn:Hc.
    + exists (c :: l). repeat split.
      * simpl. now f_equal.
      * now constructor.
      * exact Hh.
    + exists []. repeat split; [constructor|].
      intros c' rest [= <- _]. exact Hc.
Qed.

Lemma spaces_rev (l : list ascii) : spaces l -> spaces (rev l).
Proof. apply Forall_rev. Qed.

Lemma rstrip_split (s : list ascii) :
  exists r, s = rstrip s ++ r /\ spaces r
            /\ forall c front, rstrip s = front ++ [c] -> isspace c = false.
Proof.
  unfold rstrip.
  destruct (lstrip_split (rev s)) as (l & Hs & Hl & Hh).
  exists (rev l). repeat split.
  - rewrite <- rev_app_distr, <- Hs. now rewrite rev_involutive.
  - now apply spaces_rev.
  - intros c front Hc. apply (Hh c (rev front)).
    rewrite <- (rev_involutive (lstrip (rev s))), Hc.
    now rewrite rev_app_distr.
Qed.

Lemma strip_trimmed (s : list ascii) : trimmed_to s (rstrip (lstrip s)).
Proof.
  destruct (lstrip_split s) as (l & Hs & Hl & Hh).
  destruct (rstrip_split (lstrip s)) as (r & Hr & Hrs & Hlast).
  exists l, r. repeat split; try assumption.
  - now rewrite <- Hr.
  - intros c rest Hc. rewrite Hc in Hr. simpl in Hr.
    now apply (Hh c (rest ++ r)).
Qed.

Lemma trimmed_unique (s core : list ascii) :
  trimmed_to s core -> rstrip (lstrip s) = core.
Proof.
  intros (l & r & -> & Hl & Hr & Hhead & Hlast).
  rewrite lstrip_spaces_app by assumption.
  destruct core as [|c rest].
  - simpl. rewrite lstrip_spaces by assumption. reflexivity.
  - rewrite <- app_comm_cons, lstrip_head by now apply (Hhead c rest).
    unfold rstrip. rewrite app_comm_cons, rev_app_distr.
    rewrite lstrip_spaces_app by now apply spaces_rev.
    destruct (rev (c :: rest)) as [|d back] eqn:Hrev.
    + apply (f_equal (@rev ascii)) in Hrev.
      rewrite rev_involutive in Hrev. discriminate.
    + rewrite lstrip_head.
      * rewrite <- Hrev. apply rev_involutive.
      * apply (Hlast d (rev back)).
        rewrite <- (rev_involutive (c :: rest)), Hrev. reflexivity.
Qed.

Lemma lower_char_same (c : ascii) : same_letter c (lower_char c).
Proof.
  unfold same_letter, lower_char.
  destruct (isupper c) eqn:Hu; [|now left].
  right; left. split; [reflexivity|].
  revert Hu. destruct c as [[] [] [] [] [] [] [] []]; vm_compute; congruence.
Qed.

Lemma same_letter_lower (c t : ascii) :
  isupper t = false -> same_letter c t -> lower_char c = t.
Proof.
  intros Ht [->|[[Hu Hc]|[Hu _]]].
  - unfold lower_char. now rewrite Ht.
  - unfold lower_char. rewrite Hu, <- Hc.
    unfold chr, code_point. now rewrite N2Z.id, ascii_N_embedding.
  - congruence.
Qed.

Lemma matches_lower (core tok : list ascii) :
  Forall (fun t => isupper t = false) tok ->
  Forall2 same_letter core tok -> map lower_char core = tok.
Proof.
  intros Ht H. induction H as [|c t core tok Hct _ IH]; [reflexivity|].
  inversion Ht; subst. simpl. f_equal; [now apply same_letter_lower | now apply IH].
Qed.

Lemma lower_matches (core : list ascii) :
  Forall2 same_letter core (map lower_char core).
Proof. induction core; constructor; [apply lower_char_same | assumption]. Qed.

(** ** Policy resolver *)

Lemma token_match_spec (tokens : list string) (v : option string) :
  Forall lowercase_token tokens -> "" ∉ tokens ->
  (str_lower (str_strip (or_str v "")) ∈ tokens <-> spec_matches tokens v).
Proof.
  intros Hlow Hne. split.
  - intros Hin.
    assert (exists s, v = Some s) as [s ->].
    { destruct v as [s|]; [eauto|]. exfalso. now apply Hne. }
    assert (or_str (Some s) "" = s) as Hs.
    { simpl. unfold str_bool. destruct (String.eqb_spec s ""); simpl; congruence. }
    rewrite Hs in Hin.
    exists s, (rstrip (lstrip (list_ascii_of_string s))), (str_lower (str_strip s)).
    repeat split; [apply strip_trimmed | assumption |].
    unfold str_lower, str_strip.
    rewrite !list_ascii_of_string_of_list_ascii. apply lower_matches.
  - intros (s & core & tok & -> & Htrim & Hin & Hmatch).
    assert (Hcore : map lower_char core = list_ascii_of_string tok).
    { apply matches_lower; [|assumption].
      rewrite Forall_forall in Hlow. now apply Hlow. }
    apply trimmed_unique in Htrim.
    assert (Htok : tok <> "").
    { intros ->. now apply Hne. }
    assert (or_str (Some s) "" = s) as ->.
    { simpl. unfold str_bool. destruct (String.eqb_spec s ""); simpl; congruence. }
    unfold str_lower, str_strip.
    rewrite list_ascii_of_string_of_list_ascii, Htrim, Hcore.
    now rewrite string_of_list_ascii_of_string.
Qed.

Lemma truthy_tokens_lowercase : Forall lowercase_token truthy_tokens.
Proof. repeat constructor. Qed.

Lemma falsy_tokens_lowercase : Forall lowercase_token falsy_tokens.
Proof. repeat constructor. Qed.

Lemma _env_truthy_spec (v : option string) :
  _env_truthy v = true <-> spec_truthy v.
Proof.
  unfold _env_truthy. rewrite bool_decide_eq_true.
  apply token_match_spec; [apply truthy_tokens_lowercase|].
  apply (proj1 (bool_decide_eq_false _)). reflexivity.
Qed.

Lemma _env_falsy_spec (v : option string) :
  _env_falsy v = true <-> spec_falsy v.
Proof.
  unfold _env_falsy. rewrite bool_decide_eq_true.
  apply token_match_spec; [apply falsy_tokens_lowercase|].
  apply (proj1 (bool_decide_eq_false _)). reflexivity.
Qed.

Lemma spec_matches_mono (xs ys : list string) (v : option string) :
  (forall t, t ∈ xs -> t ∈ ys) -> spec_matches xs v -> spec_matches ys v.
Proof.
  intros Hsub (s & core & tok & Hv & Htrim & Hin & Hm).
  exists s, core, tok. auto.
Qed.

Lemma _env_opt_out_unfold (environ : gmap string string) :
  _env_opt_out environ = true <->
  _env_truthy (environ !! _OPTOUT_ENV_VAR) = true
  \/ _env_truthy (environ !! "TELEMETRY_OPTOUT") = true
  \/ exists tel, environ !! "TELEMETRY" = Some tel /\ _env_falsy (Some tel) = true.
Proof.
  unfold _env_opt_out.
  destruct (_env_truthy (environ !! _OPTOUT_ENV_VAR)); simpl; [tauto|].
  destruct (_env_truthy (environ !! "TELEMETRY_OPTOUT")); simpl; [tauto|].
  destruct (environ !! "TELEMETRY") as [tel|].
  - destruct (_env_falsy (Some tel)) eqn:Hf.
    + split; [|reflexivity]. intros _. right; right. eauto.
    + split; [discriminate|].
      intros [?|[?|(t & [= <-] & Ht)]]; congruence.
  - split; [discriminate|].
    intros [?|[?|(t & ? & _)]]; congruence.
Qed.

(** C2: the opt-out predicate is true exactly when the project opt-out
    variable is truthy, or the generic opt-out variable is truthy, or
    TELEMETRY is set and falsy.  A value is truthy (falsy) exactly when it is
    set and, trimmed, matches a truthy (falsy) token without regard to case;
    an absent value is neither, and so is a value that matches no token. *)
Theorem C2_opt_out_predicate :
  (forall environ : gmap string string,
      _env_opt_out environ = true <->
      spec_truthy (environ !! _OPTOUT_ENV_VAR)
      \/ spec_truthy (environ !! "TELEMETRY_OPTOUT")
      \/ exists tel,
          environ !! "TELEMETRY" = Some tel /\ spec_falsy (Some tel))
  /\ (forall v, _env_truthy v = true <-> spec_truthy v)
  /\ (forall v, _env_falsy v = true <-> spec_falsy v)
  /\ (_env_truthy None = false /\ _env_falsy None = false)
  /\ (forall s,
        ~ spec_matches (truthy_tokens ++ falsy_tokens) (Some s) ->
        _env_truthy (Some s) = false /\ _env_falsy (Some s) = false).
Proof.
  split; [|split; [|split; [|split]]].
  - intros environ. rewrite _env_opt_out_unfold, !_env_truthy_spec.
    split; (intros [H|[H|(tel & Ht & H)]]; [now left | now right; left |]);
      right; right; exists tel; (split; [assumption|]);
      now apply _env_falsy_spec.
  - apply _env_truthy_spec.
  - apply _env_falsy_spec.
  - split; reflexivity.
  - intros s Hno. split; apply not_true_is_false; intros H; apply Hno.
    + apply _env_truthy_spec in H.
      eapply spec_matches_mono; [|exact H]. intros t Ht. apply elem_of_app. now left.
    + apply _env_falsy_spec in H.
      eapply spec_matches_mono; [|exact H]. intros t Ht. apply elem_of_app. now right.
Qed.

(** ** Endpoint *)

Lemma or_str_nonempty (v : option string) (d : string) :
  d <> "" -> or_str v d <> "".
Proof.
  intros Hd. destruct v as [s|]; simpl; [|assumption].
  unfold str_bool. destruct (String.eqb_spec s ""); simpl; assumption.
Qed.

(** C3, as the code has it: an unset or empty override resolves to the
    default URL, a non-empty override resolves to itself, and the resolved
    endpoint is never empty, so the endpoint test of the send never skips. *)
Theorem C3_endpoint_resolution :
  forall environ : gmap string string,
    (environ !! "TELEMETRY_ENDPOINT" = None
       \/ environ !! "TELEMETRY_ENDPOINT" = Some ""
     -> _get_endpoint environ = _DEFAULT_ENDPOINT)
    /\ (forall v, environ !! "TELEMETRY_ENDPOINT" = Some v -> v <> "" ->
          _get_endpoint environ = v)
    /\ negb (str_bool (_get_endpoint environ)) = false.
Proof.
  intros environ. unfold _get_endpoint. repeat split.
  - intros [->| ->]; reflexivity.
  - intros v -> Hv. simpl. unfold str_bool.
    destruct (String.eqb_spec v ""); simpl; congruence.
  - unfold str_bool.
    destruct (String.eqb_spec
                (or_str (environ !! "TELEMETRY_ENDPOINT") _DEFAULT_ENDPOINT) "")
      as [H|H]; [|reflexivity].
    exfalso. revert H. now apply or_str_nonempty.
Qed.

(** C3 as stated fails: with the override set to the empty string the
    default endpoint is resolved and the send goes out to it. *)
Lemma C3_empty_override_still_sends :
  let c := host {[ "TELEMETRY_ENDPOINT" := "" ]} LoopRunning in
  environ c !! "TELEMETRY_ENDPOINT" = Some ""
  /\ _get_endpoint (environ c) = _DEFAULT_ENDPOINT
  /\ omap dispatched_to
       (trace (snd (maybe_send_telemetry_async c (fresh_process ∅))))
     = [_DEFAULT_ENDPOINT].
Proof. vm_compute. repeat split; reflexivity. Qed.

(** ** Transport *)

(** Once the request object exists, nothing the network does reaches the
    caller. *)
Lemma _post_sync_with_scheme c url data timeout p :
  has_scheme url = true ->
  _post_sync c url data timeout p
  = (Ok tt, with_trace (trace p ++ [Dispatch url data timeout]) p).
Proof.
  intros Hs. unfold _post_sync, Request, bind, try_except, urlopen_call.
  rewrite Hs. unfold bind, ret, emit.
  destruct (urlopen c url data timeout) as [status|e]; simpl; [reflexivity|].
  destruct (is_URLError e); reflexivity.
Qed.

(** The request object is built outside the [try]: a URL without a scheme
    makes the constructor raise, and the exception leaves the function. *)
Lemma _post_sync_without_scheme c url data timeout p :
  has_scheme url = false ->
  _post_sync c url data timeout p = (Raise (Exc ValueError), p).
Proof.
  intros Hs. unfold _post_sync, Request, bind. rewrite Hs. reflexivity.
Qed.

(** C5 at the failing input: for the endpoint [foo], whatever the payload,
    the timeout and the network, [_post_sync] raises [ValueError] to its
    caller and sends nothing. *)
Theorem C5_post_sync_raises_on_url_without_scheme :
  forall c data timeout p,
    _post_sync c "foo" data timeout p = (Raise (Exc ValueError), p).
Proof. intros. now apply _post_sync_without_scheme. Qed.

(** ** The gate of the send *)

Lemma async_skips_when_opted_out c p :
  _env_opt_out (environ c) = true ->
  exists l msg,
    maybe_send_telemetry_async c p
    = (Ok tt, with_trace (trace p ++ [Log l msg]) (with_logged_skip true p)).
Proof.
  intros Hopt. unfold maybe_send_telemetry_async. rewrite Hopt, orb_true_r.
  destruct (_HAS_LOGGED_SKIP p) eqn:Hflag; simpl.
  - exists DEBUG, "telemetry skipped (endpoint=%s, opted_out=%s)".
    unfold log, emit. f_equal. destruct p; simpl in *. now subst.
  - exists INFO, "[telemetry] skipped (endpoint_configured=%s, opted_out=%s)".
    reflexivity.
Qed.

(** C1 at the failing input: the user has opted out and no event loop can
    be obtained; the first call of the background entry point still posts a
    payload to the default endpoint. *)
Theorem C1_fallback_posts_while_opted_out :
  let c := host {[ "TELEMETRY_OPTOUT" := "1" ]} NoEventLoop in
  _env_opt_out (environ c) = true
  /\ omap dispatched_to
       (trace (snd (maybe_send_telemetry_background c (fresh_process ∅))))
     = [_DEFAULT_ENDPOINT].
Proof. vm_compute. split; reflexivity. Qed.

(** ** Identity store *)

Lemma with_trace_nil p : with_trace (trace p ++ []) p = p.
Proof. destruct p; unfold with_trace; simpl. now rewrite app_nil_r. Qed.

Lemma str_bool_true (s : string) : str_bool s = true <-> s <> "".
Proof. unfold str_bool. destruct (String.eqb_spec s ""); simpl; split; congruence. Qed.

Lemma str_bool_false (s : string) : str_bool s = false <-> s = "".
Proof. unfold str_bool. destruct (String.eqb_spec s ""); simpl; split; congruence. Qed.

(** ** Line ends *)

Lemma spaces_newlines (l : list ascii) :
  forall b, spaces (newlines b l) <-> spaces l.
Proof.
  unfold spaces. induction l as [|c l IH]; intros b; simpl; [tauto|].
  destruct (Ascii.eqb_spec c CR) as [->|Hcr].
  - split; intros H; inversion H; subst; constructor;
      try reflexivity; now apply (IH true).
  - destruct (Ascii.eqb_spec c LF) as [->|Hlf].
    + destruct b.
      * split; intros H.
        -- constructor; [reflexivity|now apply (IH false)].
        -- inversion H; subst. now apply (IH false).
      * split; intros H; inversion H; subst; constructor;
          try reflexivity; now apply (IH false).
    + split; intros H; inversion H; subst; constructor;
        try assumption; now apply (IH false).
Qed.

(** A string is blank once trimmed exactly when it is all whitespace. *)
Lemma strip_blank (s : string) :
  str_strip s = "" <-> spaces (list_ascii_of_string s).
Proof.
  unfold str_strip. split.
  - intros H.
    destruct (strip_trimmed (list_ascii_of_string s))
      as (l & r & Hs & Hl & Hr & _).
    assert (Hcore : rstrip (lstrip (list_ascii_of_string s)) = [])
      by (apply string_of_list_inj; exact H).
    rewrite Hcore in Hs. rewrite Hs. now apply Forall_app.
  - intros H. rewrite (lstrip_spaces _ H). reflexivity.
Qed.

(** Translating the line ends does not change whether a text is blank. *)
Lemma read_usable (s : string) :
  str_bool (str_strip (universal_newlines s)) = str_bool (str_strip s).
Proof.
  assert (H : str_strip (universal_newlines s) = "" <-> str_strip s = "").
  { rewrite !strip_blank. unfold universal_newlines.
    rewrite list_ascii_of_string_of_list_ascii. apply spaces_newlines. }
  destruct (str_bool (str_strip s)) eqn:Hs.
  - apply str_bool_true. apply str_bool_true in Hs. tauto.
  - apply str_bool_false. apply str_bool_false in Hs. tauto.
Qed.

(** A text without whitespace is read as it is. *)
Lemma newlines_kept (l : list ascii) :
  Forall (fun c => isspace c = false) l -> forall b, newlines b l = l.
Proof.
  induction 1 as [|c l Hc _ IH]; intros b; simpl; [reflexivity|].
  destruct (Ascii.eqb_spec c CR) as [->|_];
    [vm_compute in Hc; discriminate|].
  destruct (Ascii.eqb_spec c LF) as [->|_];
    [vm_compute in Hc; discriminate|].
  now rewrite IH.
Qed.

(** The state file path depends on the environment only, and resolving it
    only logs. *)
Lemma _get_state_file_runs c :
  exists path evs, forall p,
    _get_state_file c p = (Ok path, with_trace (trace p ++ evs) p).
Proof.
  unfold _get_state_file.
  destruct (str_bool (or_str (environ c !! "TELEMETRY_STATE_FILE") "")).
  - eexists _, [_]. intros p. reflexivity.
  - destruct (str_bool (or_str (environ c !! "TELEMETRY_STATE_DIR") "")).
    + eexists _, [_]. intros p. reflexivity.
    + exists (module_state_file c), []. intros p. unfold ret.
      now rewrite with_trace_nil.
Qed.

(** C6, as the code has it: the identity store never raises.  A state file
    that can be read and is not blank once trimmed yields its content as
    text mode reads it (the line ends [\r\n] and [\r] read as [\n]),
    trimmed.  A missing file, or a readable one that is blank once trimmed,
    makes the store draw a new identifier, write it to the file and return
    it, whether or not the parent directory could be created.  When
    reading, opening or writing the file fails, the store returns the
    identifier of a fresh draw, and that identifier is not written. *)
Theorem C6_identity_store :
  forall c p, exists path id p',
    (forall q, fst (_get_state_file c q) = Ok path)
    /\ _ensure_instance_id c p = (Ok id, p')
    /\ (forall content,
          files p !! path = Some content ->
          read_fails (faults c) = false ->
          str_strip content <> "" ->
          id = str_strip (universal_newlines content)
          /\ files p' = files p /\ draws p' = draws p)
    /\ (files p !! path = None
        \/ (exists content,
              files p !! path = Some content
              /\ read_fails (faults c) = false /\ str_strip content = "") ->
        (open_fails (faults c) = false -> write_fails (faults c) = false ->
           id = nth_uuid c (draws p)
           /\ files p' = <[path := id]> (files p)
           /\ draws p' = S (draws p))
        /\ (open_fails (faults c) = true \/ write_fails (faults c) = true ->
            id = nth_uuid c (S (draws p))
            /\ draws p' = S (S (draws p))
            /\ (files p' = files p \/ files p' = <[path := ""]> (files p))))
    /\ (is_Some (files p !! path) ->
        read_fails (faults c) = true ->
        id = nth_uuid c (draws p)
        /\ draws p' = S (draws p) /\ files p' = files p).
Proof.
  intros c p.
  destruct (_get_state_file_runs c) as (path & evs & Hpath).
  exists path.
  unfold _ensure_instance_id, bind, try_except. rewrite Hpath.
  unfold os_path_exists, read_text, write_text, makedirs_parent, uuid4,
    log, emit, ret, bind, try_except.
  simpl.
  destruct (faults c) as [rf mf opf wf]; simpl.
  destruct (files p !! path) as [content|] eqn:Hfile; simpl.
  all: destruct rf, mf, opf, wf; repeat (rewrite ?Hfile; simpl).
  all: rewrite ?read_usable.
  all: try (destruct (str_bool (str_strip content)) eqn:Hraw;
            [apply str_bool_true in Hraw | apply str_bool_false in Hraw];
            repeat (rewrite ?Hfile; simpl)).
  all: eexists _, _;
    (split; [intros q; now rewrite Hpath|split; [reflexivity|]]); simpl.
  all: repeat split; intros;
    repeat match goal with
      | H : _ \/ _ |- _ => destruct H
      | H : ex _ |- _ => destruct H
      | H : _ /\ _ |- _ => destruct H
      end;
    simplify_eq; try done; auto.
Qed.

(** C6 as stated fails on a state file that holds only whitespace: its
    content is not empty, yet the store does not return the trimmed content
    (the empty string); it draws a new identifier and overwrites the file. *)
Lemma C6_blank_file_is_replaced :
  let c := host ∅ LoopRunning in
  let path := "/srv/app/.telemetry_id" in
  let p := fresh_process {[ path := " " ]} in
  fst (_get_state_file c p) = Ok path
  /\ files p !! path = Some " "
  /\ String.eqb " " "" = false
  /\ read_fails (faults c) = false
  /\ fst (_ensure_instance_id c p) = Ok "00000000-0000-4000-8000-000000000001"
  /\ str_strip " " = ""
  /\ files (snd (_ensure_instance_id c p)) !! path
     = Some "00000000-0000-4000-8000-000000000001".
Proof. vm_compute. repeat split; reflexivity. Qed.

(** ** What the module's computations leave alone *)

Lemma calm_refl p : calm p p.
Proof.
  split; [reflexivity|]. split; [|auto]. exists []. now rewrite app_nil_r.
Qed.

Lemma calm_trans p q r : calm p q -> calm q r -> calm p r.
Proof.
  intros (Hf & (e1 & He1 & H1) & Hk1) (Hg & (e2 & He2 & H2) & Hk2).
  split; [congruence|]. split; [|auto].
  exists (e1 ++ e2). rewrite He2, He1, app_assoc. split; [reflexivity|].
  now apply Forall_app.
Qed.

(** A step that touches neither guard, trace nor files. *)
Lemma calm_aside p p' :
  _HAS_SCHEDULED_SEND p' = _HAS_SCHEDULED_SEND p ->
  trace p' = trace p -> files p' = files p -> calm p p'.
Proof.
  intros Hf Ht Hfs. split; [assumption|]. split.
  - exists []. now rewrite app_nil_r.
  - intros path. now rewrite Hfs.
Qed.

Lemma calm_ret {A} (a : A) : calm_M (ret a).
Proof. intros p. apply calm_refl. Qed.

Lemma calm_raise {A} e : calm_M (@raise A e).
Proof. intros p. apply calm_refl. Qed.

Lemma calm_bind {A B} (m : M A) (k : A -> M B) :
  calm_M m -> (forall a, calm_M (k a)) -> calm_M (bind m k).
Proof.
  intros Hm Hk p. unfold bind. specialize (Hm p).
  destruct (m p) as [[a|r] p']; simpl in *; [|assumption].
  eapply calm_trans; [eassumption|apply Hk].
Qed.

Lemma calm_try_except {A} (m : M A) (h : exception -> M A) :
  calm_M m -> (forall e, calm_M (h e)) -> calm_M (try_except m h).
Proof.
  intros Hm Hh p. unfold try_except. specialize (Hm p).
  destruct (m p) as [[a|[e|]] p']; simpl in *; try assumption.
  eapply calm_trans; [eassumption|apply Hh].
Qed.

Lemma calm_emit e : unscheduled e -> calm_M (emit e).
Proof.
  intros He p. split; [reflexivity|]. split; [|auto].
  exists [e]. split; [reflexivity|]. now constructor.
Qed.

Lemma calm_log l msg : calm_M (log l msg).
Proof. now apply calm_emit. Qed.

Lemma calm_write_file path s p :
  calm p (with_files (<[path := s]> (files p)) p).
Proof.
  split; [reflexivity|]. split.
  - exists []. simpl. now rewrite app_nil_r.
  - intros other Hsome. simpl.
    destruct (decide (path = other)) as [->|Hne].
    + rewrite lookup_insert_eq. eauto.
    + now rewrite lookup_insert_ne.
Qed.

Lemma calm_with_draws n p : calm p (with_draws n p).
Proof. now apply calm_aside. Qed.

Lemma calm_with_logged_skip b p : calm p (with_logged_skip b p).
Proof. now apply calm_aside. Qed.

Lemma calm_with_logged_no_project b p : calm p (with_logged_no_project b p).
Proof. now apply calm_aside. Qed.

Lemma calm_with_logged_schedule b p : calm p (with_logged_schedule b p).
Proof. now apply calm_aside. Qed.

Lemma calm_uuid4 c : calm_M (uuid4 c).
Proof. intros p. apply calm_with_draws. Qed.

Lemma calm_os_path_exists path : calm_M (os_path_exists path).
Proof. intros p. apply calm_refl. Qed.

Lemma calm_read_text c path : calm_M (read_text c path).
Proof.
  intros p. unfold read_text.
  destruct (read_fails (faults c)); [apply calm_refl|].
  destruct (files p !! path); apply calm_refl.
Qed.

Lemma calm_makedirs_parent c path : calm_M (makedirs_parent c path).
Proof.
  intros p. unfold makedirs_parent.
  destruct (makedirs_fails (faults c)); apply calm_refl.
Qed.

Lemma calm_write_text c path s : calm_M (write_text c path s).
Proof.
  intros p. unfold write_text.
  destruct (open_fails (faults c)); [apply calm_refl|].
  destruct (write_fails (faults c)); apply calm_write_file.
Qed.

Create HintDb calm.
#[local] Hint Resolve calm_ret calm_raise calm_log calm_uuid4
  calm_os_path_exists calm_read_text calm_makedirs_parent calm_write_text
  : calm.

(** Walks through a computation built from the combinators. *)
Ltac calm_steps :=
  repeat first
    [ apply calm_bind; [|intros ?]
    | apply calm_try_except; [|intros ?]
    | solve [auto with calm]
    | match goal with
      | |- calm_M (if ?b then _ else _) => destruct b
      | |- calm_M (match ?x with _ => _ end) => destruct x
      end ].

Lemma calm_get_state_file c : calm_M (_get_state_file c).
Proof. unfold _get_state_file. calm_steps. Qed.

Lemma calm_ensure_instance_id c : calm_M (_ensure_instance_id c).
Proof.
  unfold _ensure_instance_id.
  apply calm_bind; [apply calm_get_state_file|intros path]. calm_steps.
Qed.

Lemma calm_make_payload c : calm_M (_make_payload c).
Proof.
  unfold _make_payload.
  apply calm_bind; [apply calm_ensure_instance_id|intros rid]. calm_steps.
Qed.

Lemma calm_post_sync c url data timeout : calm_M (_post_sync c url data timeout).
Proof.
  unfold _post_sync, Request, urlopen_call. calm_steps.
  all: now apply calm_emit.
Qed.

Lemma calm_run_in_executor c job : calm_M job -> calm_M (run_in_executor c job).
Proof.
  intros Hjob p. unfold run_in_executor. specialize (Hjob p).
  destruct (in_flight c); [exact Hjob|].
  destruct (job_started c); [exact Hjob|apply calm_refl].
Qed.

Lemma calm_send c : calm_M (maybe_send_telemetry_async c).
Proof.
  unfold maybe_send_telemetry_async.
  destruct (negb (str_bool (_get_endpoint (environ c)))
            || _env_opt_out (environ c)).
  - intros p. destruct (negb (_HAS_LOGGED_SKIP p)).
    + eapply calm_trans; [apply calm_with_logged_skip|apply calm_log].
    + apply calm_log.
  - destruct (negb (str_bool _get_project_name)).
    + intros p. destruct (negb (_HAS_LOGGED_NO_PROJECT p)).
      * eapply calm_trans; [apply calm_with_logged_no_project|apply calm_log].
      * apply calm_log.
    + apply calm_bind; [apply calm_make_payload|intros payload].
      apply calm_try_except; [|intros e; apply calm_ret].
      unfold get_running_loop.
      apply calm_bind; [destruct (event_loop c); auto with calm|intros _].
      apply calm_bind; [apply calm_log|intros _].
      apply calm_run_in_executor, calm_post_sync.
Qed.

Lemma calm_asyncio_sleep d s : calm_M (asyncio_sleep d s).
Proof.
  unfold asyncio_sleep.
  apply calm_bind; [now apply calm_emit|intros _].
  destruct s; [apply calm_ret|]. intros p. apply calm_refl.
Qed.

Lemma calm_tick_body t : calm_M (tick_body t).
Proof.
  unfold tick_body.
  apply calm_bind; [calm_steps|intros d].
  apply calm_bind; [apply calm_asyncio_sleep|intros _].
  destruct (_env_opt_out (environ (at_wake t))); [apply calm_ret|apply calm_send].
Qed.

Lemma calm_loop_iteration t p : calm p (snd (loop_iteration t p)).
Proof.
  unfold loop_iteration. pose proof (calm_tick_body t p) as Hb.
  destruct (tick_body t p) as [[u|[e|]] p']; simpl in *; try assumption.
  pose proof (calm_asyncio_sleep BACKOFF (backoff_ends t) p') as Hs.
  destruct (asyncio_sleep BACKOFF (backoff_ends t) p') as [[u|[e'|]] p''];
    simpl in *; eapply calm_trans; eassumption.
Qed.

(** ** What can raise, and what cancellation can reach *)

Lemma _ensure_instance_id_returns c p :
  exists id p', _ensure_instance_id c p = (Ok id, p').
Proof.
  destruct (_get_state_file_runs c) as (path & evs & Hpath).
  unfold _ensure_instance_id, bind, try_except. rewrite Hpath.
  unfold os_path_exists, read_text, write_text, makedirs_parent, uuid4,
    log, emit, ret, bind, try_except.
  simpl.
  destruct (faults c) as [rf mf opf wf]; simpl.
  destruct (files p !! path) as [content|] eqn:Hfile; simpl.
  all: destruct rf, mf, opf, wf; repeat (rewrite ?Hfile; simpl).
  all: rewrite ?read_usable.
  all: try (destruct (str_bool (str_strip content));
            repeat (rewrite ?Hfile; simpl)).
  all: eexists _, _; reflexivity.
Qed.

Lemma _make_payload_returns c p :
  exists rid p',
    _ensure_instance_id c p = (Ok rid, p')
    /\ _make_payload c p
       = (Ok [ ("id", JStr (_hash_id rid));
               ("date", JStr (strftime_Ymd (utcnow c)));
               ("projectname", JStr _PROJECT_NAME);
               ("project", JStr _PROJECT_NAME);
               ("count", JInt 1) ], p').
Proof.
  destruct (_ensure_instance_id_returns c p) as (rid & p' & H).
  exists rid, p'. split; [assumption|].
  unfold _make_payload, bind. now rewrite H.
Qed.

Lemma uncancelled_ret {A} (a : A) : uncancelled (ret a).
Proof. intros p. discriminate. Qed.

Lemma uncancelled_raise {A} e : uncancelled (@raise A e).
Proof. intros p. discriminate. Qed.

Lemma uncancelled_emit e : uncancelled (emit e).
Proof. intros p. discriminate. Qed.

Lemma uncancelled_bind {A B} (m : M A) (k : A -> M B) :
  uncancelled m -> (forall a, uncancelled (k a)) -> uncancelled (bind m k).
Proof.
  intros Hm Hk p. unfold bind. specialize (Hm p).
  destruct (m p) as [[a|r] p']; simpl in *; [apply Hk|].
  intros [= ->]. now apply Hm.
Qed.

Lemma uncancelled_try_except {A} (m : M A) (h : exception -> M A) :
  uncancelled m -> (forall e, uncancelled (h e)) ->
  uncancelled (try_except m h).
Proof.
  intros Hm Hh p. unfold try_except. specialize (Hm p).
  destruct (m p) as [[a|[e|]] p']; simpl in *;
    [discriminate | apply Hh | exfalso; now apply Hm].
Qed.

Lemma uncancelled_make_payload c : uncancelled (_make_payload c).
Proof.
  intros p. destruct (_make_payload_returns c p) as (rid & p' & _ & ->).
  discriminate.
Qed.

Lemma uncancelled_post_sync c url data timeout :
  uncancelled (_post_sync c url data timeout).
Proof.
  intros p. destruct (has_scheme url) eqn:Hs.
  - rewrite _post_sync_with_scheme by assumption. discriminate.
  - rewrite _post_sync_without_scheme by assumption. discriminate.
Qed.

Lemma uncancelled_send c :
  in_flight c = Resumed -> uncancelled (maybe_send_telemetry_async c).
Proof.
  intros Hfl. unfold maybe_send_telemetry_async.
  destruct (negb (str_bool (_get_endpoint (environ c)))
            || _env_opt_out (environ c)).
  - intros p. destruct (negb (_HAS_LOGGED_SKIP p)); discriminate.
  - destruct (negb (str_bool _get_project_name)).
    + intros p. destruct (negb (_HAS_LOGGED_NO_PROJECT p)); discriminate.
    + apply uncancelled_bind; [apply uncancelled_make_payload|intros payload].
      apply uncancelled_try_except; [|intros e; apply uncancelled_ret].
      apply uncancelled_bind; [|intros _].
      { unfold get_running_loop.
        destruct (event_loop c);
          [apply uncancelled_raise .. | apply uncancelled_ret]. }
      apply uncancelled_bind; [apply uncancelled_emit|intros _].
      intros p. unfold run_in_executor. rewrite Hfl.
      apply uncancelled_post_sync.
Qed.

Lemma uncancelled_tick_body t :
  sleep_ends t = Resumed -> in_flight (at_wake t) = Resumed ->
  uncancelled (tick_body t).
Proof.
  intros Hs Hf. unfold tick_body.
  apply uncancelled_bind; [|intros d].
  { destruct (_seconds_until_next_even_utc_hour (utcnow (at_start t)));
      [apply uncancelled_ret | apply uncancelled_raise]. }
  apply uncancelled_bind; [|intros _].
  { unfold asyncio_sleep. rewrite Hs.
    apply uncancelled_bind; [apply uncancelled_emit|intros _].
    apply uncancelled_ret. }
  destruct (_env_opt_out (environ (at_wake t)));
    [apply uncancelled_ret | now apply uncancelled_send].
Qed.

(** ** The periodic loop *)

Lemma signal_cases (s : signal) : s = Resumed \/ s = Cancel.
Proof. destruct s; auto. Qed.

Lemma cancelled_dec (t : tick) : cancelled t \/ ~ cancelled t.
Proof.
  unfold cancelled.
  destruct (sleep_ends t), (in_flight (at_wake t)), (backoff_ends t);
    first [ now left; auto | right; intros [H|[H|H]]; discriminate ].
Qed.

Lemma not_cancelled (t : tick) :
  ~ cancelled t ->
  sleep_ends t = Resumed /\ in_flight (at_wake t) = Resumed
  /\ backoff_ends t = Resumed.
Proof.
  unfold cancelled. intros H.
  destruct (sleep_ends t), (in_flight (at_wake t)), (backoff_ends t);
    auto; exfalso; apply H; auto.
Qed.

(** An error of the tick is followed by the backoff sleep; only a
    cancellation of that sleep keeps the loop from going round again. *)
Lemma loop_iteration_after_error t p e p' :
  tick_body t p = (Raise (Exc e), p') ->
  loop_iteration t p
  = (match backoff_ends t with
     | Resumed => Looping
     | Cancel => Propagated CancelledError
     end,
     with_trace (trace p' ++ [Slept BACKOFF]) p').
Proof.
  intros H. unfold loop_iteration. rewrite H.
  unfold asyncio_sleep, bind, emit, ret.
  destruct (backoff_ends t); reflexivity.
Qed.

Lemma loop_iteration_survives t p :
  ~ cancelled t -> fst (loop_iteration t p) = Looping.
Proof.
  intros Hn. destruct (not_cancelled t Hn) as (Hs & Hf & Hb).
  destruct (tick_body t p) as [[u|[e|]] p'] eqn:Hbody.
  - unfold loop_iteration. now rewrite Hbody.
  - rewrite (loop_iteration_after_error t p e p' Hbody), Hb. reflexivity.
  - exfalso. apply (uncancelled_tick_body t Hs Hf p). now rewrite Hbody.
Qed.

Lemma loop_keeps_running ts :
  Forall (fun t => ~ cancelled t) ts ->
  forall p, fst (_periodic_ping_loop ts p) = Looping.
Proof.
  induction 1 as [|t ts Ht _ IH]; intros p; [reflexivity|].
  simpl. pose proof (loop_iteration_survives t p Ht) as Hl.
  destruct (loop_iteration t p) as [o p']. simpl in Hl. subst o. apply IH.
Qed.

Lemma loop_stops_on_cancellation ts p :
  fst (_periodic_ping_loop ts p) <> Looping -> Exists cancelled ts.
Proof.
  revert p. induction ts as [|t ts IH]; intros p Hstop; [now elim Hstop|].
  destruct (cancelled_dec t) as [Hc|Hn]; [now left|]. right.
  simpl in Hstop. pose proof (loop_iteration_survives t p Hn) as Hl.
  destruct (loop_iteration t p) as [o p']. simpl in Hl. subst o.
  now apply (IH p').
Qed.

Lemma loop_iteration_opted_out t p d :
  _seconds_until_next_even_utc_hour (utcnow (at_start t)) = Some d ->
  sleep_ends t = Resumed ->
  _env_opt_out (environ (at_wake t)) = true ->
  loop_iteration t p = (Looping, with_trace (trace p ++ [Slept d]) p).
Proof.
  intros Hd Hs Ho. unfold loop_iteration, tick_body, bind, asyncio_sleep.
  rewrite Hd, Hs, Ho. reflexivity.
Qed.

Lemma loop_iteration_cancelled_asleep t p d :
  _seconds_until_next_even_utc_hour (utcnow (at_start t)) = Some d ->
  sleep_ends t = Cancel ->
  loop_iteration t p = (Returned, with_trace (trace p ++ [Slept d]) p).
Proof.
  intros Hd Hs. unfold loop_iteration, tick_body, bind, asyncio_sleep.
  rewrite Hd, Hs. reflexivity.
Qed.

(** C9: the loop stops only when a cancellation reaches one of its
    suspension points, and for as long as none does it keeps running.  A
    wake-up that finds the user opted out sends nothing and goes on to the
    next iteration.  An error raised by a tick is followed by a sleep of
    60 seconds, after which the next iteration starts; the error neither
    ends the loop nor leaves it.  A cancellation during the sleep makes the
    coroutine return. *)
Theorem C9_loop_ends_only_on_cancellation :
  (forall ts p,
      fst (_periodic_ping_loop ts p) <> Looping -> Exists cancelled ts)
  /\ (forall ts p,
        Forall (fun t => ~ cancelled t) ts ->
        fst (_periodic_ping_loop ts p) = Looping)
  /\ (forall t p d,
        _seconds_until_next_even_utc_hour (utcnow (at_start t)) = Some d ->
        sleep_ends t = Resumed ->
        _env_opt_out (environ (at_wake t)) = true ->
        loop_iteration t p = (Looping, with_trace (trace p ++ [Slept d]) p))
  /\ (forall t p e p',
        tick_body t p = (Raise (Exc e), p') ->
        BACKOFF = (60 * US_PER_SECOND)%Z
        /\ loop_iteration t p
           = (match backoff_ends t with
              | Resumed => Looping
              | Cancel => Propagated CancelledError
              end,
              with_trace (trace p' ++ [Slept BACKOFF]) p'))
  /\ (forall t p d,
        _seconds_until_next_even_utc_hour (utcnow (at_start t)) = Some d ->
        sleep_ends t = Cancel ->
        loop_iteration t p = (Returned, with_trace (trace p ++ [Slept d]) p)).
Proof.
  split; [|split; [|split; [|split]]].
  - apply loop_stops_on_cancellation.
  - intros ts p H. now apply loop_keeps_running.
  - apply loop_iteration_opted_out.
  - intros t p e p' H. split; [reflexivity|].
    now apply (loop_iteration_after_error t p e p').
  - apply loop_iteration_cancelled_asleep.
Qed.

(** ** Starting in the background *)

Lemma loops_started_app (a b : list event) :
  loops_started (a ++ b) = loops_started a + loops_started b.
Proof. unfold loops_started. now rewrite filter_app, length_app. Qed.

Lemma loops_started_unscheduled (evs : list event) :
  Forall unscheduled evs -> loops_started evs = 0.
Proof.
  unfold loops_started. induction 1 as [|e evs He _ IH]; [reflexivity|].
  rewrite filter_cons. destruct (decide (is_loop_start e = true)) as [Hl|Hl].
  - exfalso. unfold unscheduled in He.
    destruct e as [| | [] |]; simpl in *; congruence.
  - exact IH.
Qed.

Lemma calm_loops_started p p' :
  calm p p' -> loops_started (trace p') = loops_started (trace p).
Proof.
  intros (_ & (evs & -> & Hevs) & _).
  rewrite loops_started_app, (loops_started_unscheduled evs Hevs). lia.
Qed.

Lemma background_noop c p :
  _HAS_SCHEDULED_SEND p = true ->
  maybe_send_telemetry_background c p = (Ok tt, p).
Proof. intros H. unfold maybe_send_telemetry_background. now rewrite H. Qed.

Lemma uncancelled_get_state_file c : uncancelled (_get_state_file c).
Proof.
  intros p. destruct (_get_state_file_runs c) as (path & evs & H).
  rewrite H. discriminate.
Qed.

Lemma uncancelled_ensure_instance_id c : uncancelled (_ensure_instance_id c).
Proof.
  intros p. destruct (_ensure_instance_id_returns c p) as (id & p' & ->).
  discriminate.
Qed.

(** On a working file system the identity store leaves a state file. *)
Lemma _ensure_instance_id_persists c p :
  file_system_works c ->
  state_file_present c (snd (_ensure_instance_id c p)).
Proof.
  intros (Hr & Ho & Hw).
  destruct (_get_state_file_runs c) as (path & evs & Hpath).
  exists path. split; [intros q; now rewrite Hpath|].
  unfold _ensure_instance_id, bind, try_except. rewrite Hpath.
  unfold os_path_exists, read_text, write_text, makedirs_parent, uuid4,
    log, emit, ret, bind, try_except.
  simpl. rewrite Hr, Ho, Hw.
  destruct (makedirs_fails (faults c)); simpl.
  all: destruct (files p !! path) as [content|] eqn:Hfile;
    repeat (rewrite ?Hfile; simpl).
  all: rewrite ?read_usable.
  all: try (destruct (str_bool (str_strip content));
            repeat (rewrite ?Hfile; simpl)).
  all: rewrite ?lookup_insert_eq, ?Hfile; eauto.
Qed.

(** The eager identity step of the entry point: it never raises, leaves
    guard and schedule alone, and on a working file system leaves a state
    file behind. *)
Lemma eager_identity_step c p :
  exists q,
    try_except
      (_path <- _get_state_file c ;;
       _id <- _ensure_instance_id c ;;
       log INFO "[telemetry] initialized state file at %s")
      (fun _ => ret tt) p = (Ok tt, q)
    /\ calm p q
    /\ (file_system_works c -> state_file_present c q).
Proof.
  set (m := try_except _ _).
  assert (Hcalm : calm_M m).
  { apply calm_try_except; [|intros e; apply calm_ret].
    apply calm_bind; [apply calm_get_state_file|intros path].
    apply calm_bind; [apply calm_ensure_instance_id|intros id].
    apply calm_log. }
  destruct (_get_state_file_runs c) as (path & evs & Hpath).
  destruct (_ensure_instance_id_returns c (with_trace (trace p ++ evs) p))
    as (id & p1 & Hid).
  assert (Hm : m p
               = (Ok tt,
                  with_trace
                    (trace p1
                     ++ [Log INFO "[telemetry] initialized state file at %s"])
                    p1)).
  { subst m. unfold try_except, bind. rewrite Hpath, Hid. reflexivity. }
  specialize (Hcalm p). rewrite Hm in Hcalm.
  eexists. split; [exact Hm|]. split; [exact Hcalm|].
  intros Hworks.
  pose proof (_ensure_instance_id_persists c (with_trace (trace p ++ evs) p)
                Hworks) as (path' & Hpath' & Hsome).
  rewrite Hid in Hsome. exists path'. split; [exact Hpath'|exact Hsome].
Qed.

Lemma bind_ok {A B} (m : M A) (k : A -> M B) p a p' :
  m p = (Ok a, p') -> bind m k p = k a p'.
Proof. intros H. unfold bind. now rewrite H. Qed.

Lemma try_except_caught {A} (m : M A) (h : exception -> M A) p e p' :
  m p = (Raise (Exc e), p') -> try_except m h p = h e p'.
Proof. intros H. unfold try_except. now rewrite H. Qed.

Lemma try_except_ok {A} (m : M A) (h : exception -> M A) p a p' :
  m p = (Ok a, p') -> try_except m h p = (Ok a, p').
Proof. intros H. unfold try_except. now rewrite H. Qed.

(** The first call.  With a running loop it schedules the immediate send
    and the periodic loop; otherwise it schedules nothing. *)
Lemma background_first_call c p :
  _HAS_SCHEDULED_SEND p = false ->
  exists q,
    calm (with_scheduled_send true p) q
    /\ (file_system_works c -> state_file_present c q)
    /\ match event_loop c with
       | LoopRunning =>
           exists p' l msg,
             calm q p'
             /\ maybe_send_telemetry_background c p
                = (Ok tt,
                   with_trace
                     (trace p' ++ [Log l msg; Scheduled SendOnce;
                                   Scheduled PeriodicLoop]) p')
       | _ => calm q (snd (maybe_send_telemetry_background c p))
       end.
Proof.
  intros Hflag. unfold maybe_send_telemetry_background. rewrite Hflag.
  destruct (eager_identity_step c (with_scheduled_send true p))
    as (q & Hq & Hcalm & Hfile).
  exists q. split; [assumption|]. split; [assumption|].
  rewrite (bind_ok _ _ _ _ _ Hq).
  unfold get_event_loop_is_running.
  destruct (event_loop c).
  - (* no event loop: the fallback *)
    erewrite try_except_caught by reflexivity.
    apply calm_try_except; [|intros e; apply calm_ret].
    apply calm_bind; [apply calm_make_payload|intros payload].
    apply calm_post_sync.
  - erewrite try_except_ok by reflexivity. apply calm_refl.
  - destruct (_HAS_LOGGED_SCHEDULE q) eqn:Hlog.
    + exists q, DEBUG, "telemetry scheduling immediate send + periodic loop".
      split; [apply calm_refl|].
      unfold try_except, bind, ret, ensure_future, log, emit. simpl.
      rewrite Hlog. simpl. f_equal.
      destruct q; unfold with_trace; simpl in *.
      now rewrite <- !app_assoc.
    + exists (with_logged_schedule true q), INFO,
        "[telemetry] scheduling immediate send and 2h periodic loop (UTC aligned)".
      split.
      * apply calm_with_logged_schedule.
      * unfold try_except, bind, ret, ensure_future, log, emit. simpl.
        rewrite Hlog. simpl. f_equal.
        unfold with_trace; simpl. now rewrite <- !app_assoc.
Qed.

Lemma state_file_present_calm c p p' :
  calm p p' -> state_file_present c p -> state_file_present c p'.
Proof.
  intros (_ & _ & Hgrow) (path & Hpath & Hsome).
  exists path. split; [exact Hpath|]. now apply Hgrow.
Qed.

(** The first call leaves a state file behind when the file system works. *)
Lemma background_first_call_persists c p :
  _HAS_SCHEDULED_SEND p = false -> file_system_works c ->
  state_file_present c (snd (maybe_send_telemetry_background c p)).
Proof.
  intros Hflag Hworks.
  destruct (background_first_call c p Hflag) as (q & _ & Hfile & Hrest).
  specialize (Hfile Hworks).
  destruct (event_loop c).
  - now apply (state_file_present_calm c q).
  - now apply (state_file_present_calm c q).
  - destruct Hrest as (p' & l & msg & Hp' & ->). simpl.
    destruct (state_file_present_calm c q p' Hp' Hfile)
      as (path & Hpath & Hsome).
    exists path. split; [exact Hpath|exact Hsome].
Qed.

Lemma background_sets_guard c p :
  _HAS_SCHEDULED_SEND (snd (maybe_send_telemetry_background c p)) = true.
Proof.
  destruct (_HAS_SCHEDULED_SEND p) eqn:Hflag.
  - now rewrite background_noop.
  - destruct (background_first_call c p Hflag) as (q & [Hq _] & _ & Hrest).
    simpl in Hq. destruct (event_loop c).
    + destruct Hrest as [-> _]. exact Hq.
    + destruct Hrest as [-> _]. exact Hq.
    + destruct Hrest as (p' & l & msg & [Hp' _] & ->). simpl. congruence.
Qed.

Lemma background_loops_started c p :
  _HAS_SCHEDULED_SEND p = false ->
  loops_started (trace (snd (maybe_send_telemetry_background c p)))
  = loops_started (trace p)
    + match event_loop c with LoopRunning => 1 | _ => 0 end.
Proof.
  intros Hflag.
  destruct (background_first_call c p Hflag) as (q & Hq & _ & Hrest).
  apply calm_loops_started in Hq. simpl in Hq.
  destruct (event_loop c).
  - apply calm_loops_started in Hrest. lia.
  - apply calm_loops_started in Hrest. lia.
  - destruct Hrest as (p' & l & msg & Hp' & ->).
    apply calm_loops_started in Hp'. simpl.
    rewrite loops_started_app. unfold loops_started at 2. simpl. lia.
Qed.

Lemma perform_calm_once_started p a :
  _HAS_SCHEDULED_SEND p = true -> calm p (perform p a).
Proof.
  intros Hflag. destruct a as [c|c|t]; simpl.
  - rewrite background_noop by assumption. apply calm_refl.
  - apply calm_send.
  - apply calm_loop_iteration.
Qed.

Lemma lifetime_calm_once_started acts :
  forall p, _HAS_SCHEDULED_SEND p = true -> calm p (lifetime acts p).
Proof.
  induction acts as [|a acts IH]; intros p Hflag; [apply calm_refl|].
  simpl. pose proof (perform_calm_once_started p a Hflag) as Hc.
  eapply calm_trans; [exact Hc|]. apply IH.
  destruct Hc as [-> _]. exact Hflag.
Qed.

Lemma lifetime_guard_after_start acts :
  forall p,
    _HAS_SCHEDULED_SEND p = true \/ existsb is_start acts = true ->
    _HAS_SCHEDULED_SEND (lifetime acts p) = true.
Proof.
  induction acts as [|a acts IH]; intros p [Hflag|Hstart].
  - exact Hflag.
  - discriminate.
  - destruct (lifetime_calm_once_started (a :: acts) p Hflag) as [-> _].
    exact Hflag.
  - simpl. apply IH. simpl in Hstart.
    destruct a as [c|c|t]; simpl in *; auto.
    left. apply background_sets_guard.
Qed.

Lemma lifetime_at_most_one_loop acts :
  forall p,
    _HAS_SCHEDULED_SEND p = false -> loops_started (trace p) = 0 ->
    loops_started (trace (lifetime acts p)) <= 1.
Proof.
  induction acts as [|a acts IH]; intros p Hflag Hzero; [simpl; lia|].
  simpl. destruct a as [c|c|t].
  - pose proof (background_loops_started c p Hflag) as Hl.
    pose proof (background_sets_guard c p) as Hg.
    pose proof (lifetime_calm_once_started acts _ Hg) as Hc.
    apply calm_loops_started in Hc. simpl. rewrite Hc, Hl, Hzero.
    destruct (event_loop c); lia.
  - pose proof (calm_send c p) as Hc. simpl. apply IH.
    + destruct Hc as [-> _]. exact Hflag.
    + apply calm_loops_started in Hc. lia.
  - pose proof (calm_loop_iteration t p) as Hc. simpl. apply IH.
    + destruct Hc as [-> _]. exact Hflag.
    + apply calm_loops_started in Hc. lia.
Qed.

Lemma filter_unscheduled (evs : list event) :
  Forall unscheduled evs -> filter (fun e => is_scheduling e = true) evs = [].
Proof.
  induction 1 as [|e evs He _ IH]; [reflexivity|].
  rewrite filter_cons, IH. unfold unscheduled in He.
  destruct (decide (is_scheduling e = true)); [congruence|reflexivity].
Qed.

Lemma calm_scheduling p p' :
  calm p p' ->
  filter (fun e => is_scheduling e = true) (trace p')
  = filter (fun e => is_scheduling e = true) (trace p).
Proof.
  intros (_ & (evs & -> & Hevs) & _).
  now rewrite filter_app, (filter_unscheduled evs Hevs), app_nil_r.
Qed.

(** C8: a call that finds the guard set changes nothing and returns; every
    call leaves the guard set; so in any lifetime of a process each call
    after the first is a no-op, and at most one periodic loop is ever
    started.  The first call persists the identity when the file system
    works, and, made under a running event loop, schedules one immediate
    send and one periodic loop. *)
Theorem C8_background_start_is_idempotent :
  (forall c p,
      _HAS_SCHEDULED_SEND p = true ->
      maybe_send_telemetry_background c p = (Ok tt, p))
  /\ (forall c p,
        _HAS_SCHEDULED_SEND (snd (maybe_send_telemetry_background c p)) = true)
  /\ (forall fs acts c,
        existsb is_start acts = true ->
        maybe_send_telemetry_background c (lifetime acts (fresh_process fs))
        = (Ok tt, lifetime acts (fresh_process fs)))
  /\ (forall fs acts,
        loops_started (trace (lifetime acts (fresh_process fs))) <= 1)
  /\ (forall fs c,
        file_system_works c ->
        state_file_present c
          (snd (maybe_send_telemetry_background c (fresh_process fs))))
  /\ (forall fs c,
        event_loop c = LoopRunning ->
        filter (fun e => is_scheduling e = true)
          (trace (snd (maybe_send_telemetry_background c (fresh_process fs))))
        = [Scheduled SendOnce; Scheduled PeriodicLoop]).
Proof.
  split; [|split; [|split; [|split; [|split]]]].
  - apply background_noop.
  - apply background_sets_guard.
  - intros fs acts c Hstart. apply background_noop.
    apply lifetime_guard_after_start. now right.
  - intros fs acts. now apply lifetime_at_most_one_loop.
  - intros fs c Hworks. now apply background_first_call_persists.
  - intros fs c Hloop.
    destruct (background_first_call c (fresh_process fs) eq_refl)
      as (q & Hq & _ & Hrest).
    rewrite Hloop in Hrest. destruct Hrest as (p' & l & msg & Hp' & ->).
    simpl. rewrite filter_app.
    rewrite (calm_scheduling _ _ Hp'), (calm_scheduling _ _ Hq).
    reflexivity.
Qed.

(** C10: the guard is set before any scheduling is tried.  When the first
    call is made without a running event loop, the guard is set all the
    same, and from then on nothing is ever scheduled: whatever the process
    does afterwards, later calls under a running loop included, no send and
    no periodic loop is scheduled, and every later call returns leaving the
    process as it found it. *)
Theorem C10_guard_is_set_before_scheduling :
  forall c fs acts,
    event_loop c <> LoopRunning ->
    let p1 := snd (maybe_send_telemetry_background c (fresh_process fs)) in
    _HAS_SCHEDULED_SEND p1 = true
    /\ filter (fun e => is_scheduling e = true) (trace (lifetime acts p1)) = []
    /\ loops_started (trace (lifetime acts p1)) = 0
    /\ (forall c',
          maybe_send_telemetry_background c' (lifetime acts p1)
          = (Ok tt, lifetime acts p1)).
Proof.
  intros c fs acts Hloop p1.
  assert (Hguard : _HAS_SCHEDULED_SEND p1 = true)
    by apply background_sets_guard.
  assert (Hfirst : calm (with_scheduled_send true (fresh_process fs)) p1).
  { destruct (background_first_call c (fresh_process fs) eq_refl)
      as (q & Hq & _ & Hrest).
    destruct (event_loop c); [| |now elim Hloop];
      eapply calm_trans; eassumption. }
  pose proof (lifetime_calm_once_started acts p1 Hguard) as Hlife.
  assert (Hall : calm (with_scheduled_send true (fresh_process fs))
                   (lifetime acts p1))
    by (eapply calm_trans; eassumption).
  split; [assumption|split; [|split]].
  - now rewrite (calm_scheduling _ _ Hall).
  - now rewrite (calm_loops_started _ _ Hall).
  - intros c'. apply background_noop.
    destruct Hlife as [-> _]. assumption.
Qed.

(** A first call under an idle loop, then a call under a running one. *)
Lemma C10_idle_then_running :
  event_loop (host ∅ LoopIdle) <> LoopRunning
  /\ let p1 :=
       snd (maybe_send_telemetry_background (host ∅ LoopIdle) (fresh_process ∅)) in
     let acts := [StartBackground (host ∅ LoopRunning)] in
     _HAS_SCHEDULED_SEND p1 = true
     /\ filter (fun e => is_scheduling e = true) (trace (lifetime acts p1)) = []
     /\ loops_started (trace (lifetime acts p1)) = 0
     /\ (forall c',
           maybe_send_telemetry_background c' (lifetime acts p1)
           = (Ok tt, lifetime acts p1)).
Proof.
  split; [discriminate|].
  apply (C10_guard_is_set_before_scheduling (host ∅ LoopIdle) ∅
           [StartBackground (host ∅ LoopRunning)]).
  discriminate.
Defined.

(** ** Payload *)

Lemma length_hex_fixed w n : length (hex_fixed w n) = w.
Proof.
  revert n. induction w as [|w IH]; intros n; [reflexivity|].
  simpl. rewrite length_app, IH. simpl. lia.
Qed.

Lemma hex_digit_is_hex n : (0 <= n < 16)%Z -> is_hex_char (hex_digit n) = true.
Proof.
  intros H.
  assert (Hall : forallb (fun k => is_hex_char (hex_digit k)) (seqZ 0 16)
                 = true) by reflexivity.
  rewrite forallb_forall in Hall.
  apply Hall, list_elem_of_In, elem_of_seqZ. lia.
Qed.

Lemma hex_fixed_is_hex w n :
  Forall (fun c => is_hex_char c = true) (hex_fixed w n).
Proof.
  revert n. induction w as [|w IH]; intros n; [constructor|].
  simpl. apply Forall_app. split; [apply IH|].
  constructor; [|constructor]. apply hex_digit_is_hex.
  apply Z.mod_pos_bound. lia.
Qed.

Lemma length_round st kw : length (SHA256.round st kw) = length st.
Proof.
  unfold SHA256.round.
  destruct st as [|a [|b [|c [|d [|e [|f [|g [|h [|i st]]]]]]]]]; reflexivity.
Qed.

Lemma length_rounds kws : forall st,
  length (fold_left SHA256.round kws st) = length st.
Proof.
  induction kws as [|kw kws IH]; intros st; [reflexivity|].
  simpl. now rewrite IH, length_round.
Qed.

Lemma length_compress h block : length (SHA256.compress h block) = length h.
Proof.
  unfold SHA256.compress.
  rewrite length_map, length_combine, length_rounds. lia.
Qed.

Lemma length_digest_words msg : length (SHA256.digest_words msg) = 8.
Proof.
  unfold SHA256.digest_words.
  generalize (SHA256.chunks (length (SHA256.pad msg) / 64) 64 (SHA256.pad msg)).
  intros blocks.
  assert (H : forall h, length (fold_left SHA256.compress blocks h) = length h).
  { induction blocks as [|b blocks IH]; intros h; [reflexivity|].
    simpl. now rewrite IH, length_compress. }
  now rewrite H.
Qed.

Lemma length_flat_hex ws :
  length (flat_map (hex_fixed 8) ws) = 8 * length ws.
Proof.
  induction ws as [|w ws IH]; [reflexivity|].
  cbn [flat_map]. rewrite length_app, length_hex_fixed, IH. simpl. lia.
Qed.

Lemma length_string_of_list l :
  String.length (string_of_list_ascii l) = length l.
Proof. induction l as [|c l IH]; simpl; congruence. Qed.

(** The digest is 64 characters long, all of them hexadecimal digits. *)
Lemma _hash_id_shape raw :
  String.length (_hash_id raw) = 64
  /\ Forall (fun c => is_hex_char c = true)
       (list_ascii_of_string (_hash_id raw)).
Proof.
  unfold _hash_id, SHA256.hexdigest. split.
  - rewrite length_string_of_list, length_flat_hex, length_digest_words.
    reflexivity.
  - rewrite list_ascii_of_string_of_list_ascii.
    induction (SHA256.digest_words (encode_utf8 raw)) as [|w ws IH];
      [constructor|].
    cbn [flat_map]. apply Forall_app. split; [apply hex_fixed_is_hex|exact IH].
Qed.

Lemma code_point_chr n : (0 <= n < 256)%Z -> code_point (chr n) = n.
Proof.
  intros H. unfold code_point, chr.
  rewrite N_ascii_embedding; [apply Z2N.id; lia|].
  apply N2Z.inj_lt. rewrite Z2N.id by lia. simpl. lia.
Qed.

Lemma length_dec_fixed w n : length (dec_fixed w n) = w.
Proof.
  revert n. induction w as [|w IH]; intros n; [reflexivity|].
  simpl. rewrite length_app, IH. simpl. lia.
Qed.

Lemma dec_fixed_digits w n :
  Forall (fun c => is_digit_char c = true) (dec_fixed w n).
Proof.
  revert n. induction w as [|w IH]; intros n; [constructor|].
  simpl. apply Forall_app. split; [apply IH|].
  constructor; [|constructor].
  pose proof (Z.mod_pos_bound n 10 ltac:(lia)) as Hm.
  unfold is_digit_char. rewrite code_point_chr by lia.
  apply andb_true_intro. split; apply Z.leb_le; lia.
Qed.

Lemma dec_value_snoc l c :
  dec_value (l ++ [c]) = (dec_value l * 10 + (code_point c - 48))%Z.
Proof. unfold dec_value. now rewrite fold_left_app. Qed.

(** The digits written for [n] read back as [n]. *)
Lemma dec_value_dec_fixed w : forall n,
  (0 <= n < 10 ^ Z.of_nat w)%Z -> dec_value (dec_fixed w n) = n.
Proof.
  induction w as [|w IH]; intros n Hn.
  - simpl in *. unfold dec_value. simpl. lia.
  - simpl dec_fixed. rewrite dec_value_snoc.
    pose proof (Z.mod_pos_bound n 10 ltac:(lia)) as Hm.
    rewrite code_point_chr by lia.
    rewrite IH.
    + pose proof (Z.div_mod n 10 ltac:(lia)). lia.
    + rewrite Nat2Z.inj_succ, Z.pow_succ_r in Hn by lia.
      split; [apply Z.div_pos; lia|].
      apply Z.div_lt_upper_bound; lia.
Qed.

Lemma str_int_four_digits y :
  (1000 <= y <= 9999)%Z -> str_int y = string_of_list_ascii (dec_fixed 4 y).
Proof.
  intros Hy.
  assert (Hall :
    forallb (fun y => String.eqb (str_int y)
                        (string_of_list_ascii (dec_fixed 4 y)))
      (seqZ 1000 9000) = true) by (vm_compute; reflexivity).
  rewrite forallb_forall in Hall.
  apply String.eqb_eq, Hall, list_elem_of_In, elem_of_seqZ. lia.
Qed.

Lemma month_tables y m :
  (1 <= m <= 12)%Z ->
  (28 <= _days_in_month y m <= 31
   /\ 0 <= _days_before_month y m
   /\ _days_before_month y m + _days_in_month y m
      <= 365 + (if _is_leap y then 1 else 0))%Z.
Proof.
  intros Hm.
  assert (Hall : forall y0,
    forallb (month_table_ok y0) (seqZ 1 12) = true ->
    _is_leap y = _is_leap y0 ->
    (28 <= _days_in_month y m <= 31
     /\ 0 <= _days_before_month y m
     /\ _days_before_month y m + _days_in_month y m
        <= 365 + (if _is_leap y then 1 else 0))%Z).
  { intros y0 Hall Hleap. rewrite forallb_forall in Hall.
    assert (Hin : In m (seqZ 1 12))
      by (apply list_elem_of_In, elem_of_seqZ; lia).
    specialize (Hall m Hin). unfold month_table_ok in Hall.
    unfold _days_in_month, _days_before_month in *. rewrite Hleap.
    set (dim := if (m =? 2)%Z && _is_leap y0 then _ else _) in *.
    set (dbm := (_ + (if (2 <? m)%Z && _is_leap y0 then _ else _))%Z) in *.
    set (extra := if _is_leap y0 then _ else _) in *.
    clearbody dim dbm extra. lia. }
  destruct (_is_leap y) eqn:Hleap.
  - apply (Hall 2024%Z); reflexivity.
  - apply (Hall 2023%Z); reflexivity.
Qed.

Lemma _days_in_month_le_31 y m :
  (1 <= m <= 12)%Z -> (28 <= _days_in_month y m <= 31)%Z.
Proof. intros Hm. now destruct (month_tables y m Hm). Qed.

Lemma string_of_list_app (x y : list ascii) :
  string_of_list_ascii (x ++ y)
  = (string_of_list_ascii x ++ string_of_list_ascii y)%string.
Proof. induction x as [|c x IH]; simpl; [reflexivity|now rewrite IH]. Qed.

(** The date of a moment in years 1000..9999 is written YYYY-MM-DD. *)
Lemma strftime_Ymd_shape t :
  valid_datetime t -> (1000 <= year t)%Z ->
  exists yyyy mm dd,
    strftime_Ymd t
    = string_of_list_ascii (yyyy ++ "-"%char :: mm ++ "-"%char :: dd)
    /\ length yyyy = 4 /\ length mm = 2 /\ length dd = 2
    /\ Forall (fun c => is_digit_char c = true) (yyyy ++ mm ++ dd)
    /\ dec_value yyyy = year t /\ dec_value mm = month t
    /\ dec_value dd = day t.
Proof.
  intros (Hy & Hm & Hd & _) Hy'.
  pose proof (_days_in_month_le_31 (year t) (month t) Hm) as Hdim.
  exists (dec_fixed 4 (year t)), (dec_fixed 2 (month t)), (dec_fixed 2 (day t)).
  repeat apply conj.
  - unfold strftime_Ymd. rewrite str_int_four_digits by lia.
    rewrite string_of_list_app. cbn [string_of_list_ascii].
    rewrite string_of_list_app. reflexivity.
  - apply length_dec_fixed.
  - apply length_dec_fixed.
  - apply length_dec_fixed.
  - apply Forall_app; split; [|apply Forall_app; split];
      apply dec_fixed_digits.
  - apply dec_value_dec_fixed. simpl. lia.
  - apply dec_value_dec_fixed. simpl. lia.
  - apply dec_value_dec_fixed. simpl. lia.
Qed.

(** *** The serialized payload and a generated identifier *)

Lemma hyphens_app a b : hyphens (a ++ b) = hyphens a + hyphens b.
Proof. unfold hyphens. now rewrite filter_app, length_app. Qed.

Lemma hyphens_cons c l :
  hyphens (c :: l) = hyphens [c] + hyphens l.
Proof. apply (hyphens_app [c] l). Qed.

Lemma list_of_string_app (a b : string) :
  list_ascii_of_string (a ++ b)%string
  = list_ascii_of_string a ++ list_ascii_of_string b.
Proof. induction a as [|c a IH]; simpl; [reflexivity|now rewrite IH]. Qed.

Lemma occurs_hyphens needle hay :
  occurs_in needle hay ->
  hyphens (list_ascii_of_string needle) <= hyphens (list_ascii_of_string hay).
Proof. intros (pre & post & ->). rewrite !hyphens_app. lia. Qed.

Lemma hyphens_none (P : ascii -> bool) l :
  P "-"%char = false -> Forall (fun c => P c = true) l -> hyphens l = 0.
Proof.
  intros HP. unfold hyphens. induction 1 as [|c l Hc _ IH]; [reflexivity|].
  rewrite filter_cons. destruct (decide (c = "-"%char)) as [->|]; [congruence|].
  exact IH.
Qed.

Lemma hyphens_escape_char c : hyphens (json_escape_char c) = hyphens [c].
Proof. destruct c as [[] [] [] [] [] [] [] []]; vm_compute; reflexivity. Qed.

Lemma hyphens_json_string s :
  hyphens (list_ascii_of_string (json_string s))
  = hyphens (list_ascii_of_string s).
Proof.
  unfold json_string. rewrite list_ascii_of_string_of_list_ascii.
  rewrite hyphens_cons, hyphens_app.
  change (hyphens [quote_char]) with 0. simpl. rewrite Nat.add_0_r.
  induction (list_ascii_of_string s) as [|c l IH]; [reflexivity|].
  simpl flat_map.
  now rewrite hyphens_app, hyphens_escape_char, (hyphens_cons c l), IH.
Qed.

(** A version 4 identifier in its canonical form has four hyphens. *)
Lemma hyphens_uuid i : 4 <= hyphens (list_ascii_of_string (uuid_str i)).
Proof.
  unfold uuid_str. rewrite list_ascii_of_string_of_list_ascii.
  rewrite !hyphens_app. change (hyphens ["-"%char]) with 1. lia.
Qed.

(** The only hyphens of the serialized payload are the two of the date. *)
Lemma hyphens_payload item_sep key_sep digest yyyy mm dd :
  hyphens (list_ascii_of_string item_sep) = 0 ->
  hyphens (list_ascii_of_string key_sep) = 0 ->
  Forall (fun c => is_hex_char c = true) (list_ascii_of_string digest) ->
  Forall (fun c => is_digit_char c = true) (yyyy ++ mm ++ dd) ->
  hyphens
    (list_ascii_of_string
       (json_dumps item_sep key_sep
          [ ("id", JStr digest);
            ("date", JStr (string_of_list_ascii
                             (yyyy ++ "-"%char :: mm ++ "-"%char :: dd)));
            ("projectname", JStr _PROJECT_NAME);
            ("project", JStr _PROJECT_NAME);
            ("count", JInt 1) ])) = 2.
Proof.
  intros Hi Hk Hhex Hdig.
  apply Forall_app in Hdig as [Hy Hdig]. apply Forall_app in Hdig as [Hm Hd].
  unfold json_dumps, json_items, json_value_dumps.
  rewrite !list_of_string_app, !hyphens_app, !hyphens_json_string, Hi, Hk.
  rewrite list_ascii_of_string_of_list_ascii.
  rewrite (hyphens_app yyyy), (hyphens_cons "-" (mm ++ _)),
    (hyphens_app mm), (hyphens_cons "-" dd).
  rewrite (hyphens_none is_hex_char _ eq_refl Hhex).
  rewrite (hyphens_none is_digit_char _ eq_refl Hy),
    (hyphens_none is_digit_char _ eq_refl Hm),
    (hyphens_none is_digit_char _ eq_refl Hd).
  reflexivity.
Qed.

(** C7: the payload built is the list of the five keys id, date,
    projectname, project, count, in this order.  Its id is the SHA-256
    digest of the identity the store returned, written as 64 hexadecimal
    digits; no field holds the identity itself, and an identity that the
    store generated does not occur anywhere in the serialized payload.  Its
    date is the UTC date of the clock written YYYY-MM-DD; projectname and
    project are the project constant; count is 1. *)
Theorem C7_payload_shape :
  forall c p,
    valid_datetime (utcnow c) -> (1000 <= year (utcnow c))%Z ->
    exists rid p' digest yyyy mm dd payload,
      _ensure_instance_id c p = (Ok rid, p')
      /\ _make_payload c p = (Ok payload, p')
      /\ payload
         = [ ("id", JStr digest);
             ("date", JStr (string_of_list_ascii
                              (yyyy ++ "-"%char :: mm ++ "-"%char :: dd)));
             ("projectname", JStr _PROJECT_NAME);
             ("project", JStr _PROJECT_NAME);
             ("count", JInt 1) ]
      /\ map fst payload = ["id"; "date"; "projectname"; "project"; "count"]
      /\ digest = SHA256.hexdigest (encode_utf8 rid)
      /\ String.length digest = 64
      /\ Forall (fun ch => is_hex_char ch = true) (list_ascii_of_string digest)
      /\ (length yyyy = 4 /\ length mm = 2 /\ length dd = 2
          /\ Forall (fun ch => is_digit_char ch = true) (yyyy ++ mm ++ dd)
          /\ dec_value yyyy = year (utcnow c)
          /\ dec_value mm = month (utcnow c)
          /\ dec_value dd = day (utcnow c))
      /\ (forall n, rid = nth_uuid c n ->
            ~ occurs_in rid (json_dumps "," ":" payload)
            /\ ~ occurs_in rid (json_dumps ", " ": " payload)).
Proof.
  intros c p Hvalid Hyear.
  destruct (_make_payload_returns c p) as (rid & p' & Hid & Hpay).
  destruct (strftime_Ymd_shape (utcnow c) Hvalid Hyear)
    as (yyyy & mm & dd & Hdate & Hy & Hm & Hd & Hdig & Hvy & Hvm & Hvd).
  destruct (_hash_id_shape rid) as [Hlen Hhex].
  exists rid, p', (_hash_id rid), yyyy, mm, dd.
  eexists. split; [exact Hid|]. split; [exact Hpay|].
  rewrite Hdate.
  split; [reflexivity|]. split; [reflexivity|]. split; [reflexivity|].
  split; [exact Hlen|]. split; [exact Hhex|].
  split; [tauto|].
  intros n ->.
  pose proof (hyphens_uuid (uuid4_int (urandom c n))) as Hfour.
  split; intros Hocc; apply occurs_hyphens in Hocc;
    rewrite hyphens_payload in Hocc by (assumption || reflexivity);
    unfold nth_uuid in Hocc; lia.
Qed.

(** ** The calendar *)

Section Calendar.
Local Open Scope Z_scope.

Lemma _days_in_month_leap y y' m :
  _is_leap y = _is_leap y' -> _days_in_month y m = _days_in_month y' m.
Proof. intros H. unfold _days_in_month. now rewrite H. Qed.

Lemma _days_before_month_leap y y' m :
  _is_leap y = _is_leap y' -> _days_before_month y m = _days_before_month y' m.
Proof. intros H. unfold _days_before_month. now rewrite H. Qed.

(** Day number [r] of a year falls on day [d] of month [m], with [d] days
    after those of the months before [m]. *)
Lemma _month_day_spec y r :
  0 <= r <= 364 ->
  exists m d,
    _month_day r (_is_leap y) = (m, d)
    /\ 1 <= m <= 12 /\ 1 <= d <= _days_in_month y m
    /\ _days_before_month y m + d = r + 1.
Proof.
  intros Hr.
  assert (Hall : forall y0,
    forallb (month_day_ok y0) (seqZ 0 365) = true ->
    _is_leap y = _is_leap y0 ->
    exists m d,
      _month_day r (_is_leap y) = (m, d)
      /\ 1 <= m <= 12 /\ 1 <= d <= _days_in_month y m
      /\ _days_before_month y m + d = r + 1).
  { intros y0 Hall Hleap. rewrite forallb_forall in Hall.
    specialize (Hall r). unfold month_day_ok in Hall.
    rewrite Hleap.
    destruct (_month_day r (_is_leap y0)) as [m d].
    exists m, d. split; [reflexivity|].
    rewrite (_days_in_month_leap y y0 m Hleap),
      (_days_before_month_leap y y0 m Hleap).
    assert (Hin : In r (seqZ 0 365))
      by (apply list_elem_of_In, elem_of_seqZ; lia).
    specialize (Hall Hin). lia. }
  destruct (_is_leap y) eqn:Hleap.
  - apply (Hall 2024); [vm_compute; reflexivity|reflexivity].
  - apply (Hall 2023); [vm_compute; reflexivity|reflexivity].
Qed.

Lemma _days_before_year_mono y y' :
  1 <= y <= y' -> _days_before_year y <= _days_before_year y'.
Proof. intros H. unfold _days_before_year. Z.div_mod_to_equations. lia. Qed.

Lemma _days_before_year_next y :
  _days_before_year (y + 1)
  = _days_before_year y + 365 + (if _is_leap y then 1 else 0).
Proof.
  unfold _days_before_year, _is_leap.
  replace (y + 1 - 1) with y by lia.
  destruct ((y mod 4 =? 0) && (negb (y mod 100 =? 0) || (y mod 400 =? 0)))
    eqn:Hleap; Z.div_mod_to_equations; lia.
Qed.

(** The days before year [400a + 100b + 4c + d + 1]. *)
Lemma _days_before_year_split a b c d :
  0 <= b <= 3 -> 0 <= c <= 24 -> 0 <= d <= 3 ->
  _days_before_year (400 * a + 100 * b + 4 * c + d + 1)
  = 146097 * a + 36524 * b + 1461 * c + 365 * d.
Proof.
  intros Hb Hc Hd. unfold _days_before_year.
  Z.div_mod_to_equations. lia.
Qed.

Lemma _is_leap_split a b c d :
  0 <= b <= 3 -> 0 <= c <= 24 -> 0 <= d <= 3 ->
  _is_leap (400 * a + 100 * b + 4 * c + d + 1)
  = (d =? 3) && (negb (c =? 24) || (b =? 3)).
Proof.
  intros Hb Hc Hd. unfold _is_leap.
  Z.div_mod_to_equations. lia.
Qed.

(** [_ord2ymd] finds the date whose ordinal is [n]. *)
Lemma _ord2ymd_spec n :
  1 <= n ->
  exists y m d,
    _ord2ymd n = (y, m, d)
    /\ 1 <= y /\ 1 <= m <= 12 /\ 1 <= d <= _days_in_month y m
    /\ _ymd2ord y m d = n.
Proof.
  intros Hn. unfold _ord2ymd. cbv zeta.
  set (k := n - 1).
  set (n400 := k / 146097). set (r1 := k mod 146097).
  set (n100 := r1 / 36524). set (r2 := r1 mod 36524).
  set (n4 := r2 / 1461). set (r3 := r2 mod 1461).
  set (n1 := r3 / 365). set (r4 := r3 mod 365).
  assert (Hk : k = 146097 * n400 + 36524 * n100 + 1461 * n4 + 365 * n1 + r4
               /\ 0 <= n400 /\ 0 <= n100 <= 4 /\ 0 <= n4 <= 24
               /\ 0 <= n1 <= 4 /\ 0 <= r4 <= 364
               /\ (n100 = 4 -> n4 = 0 /\ n1 = 0 /\ r4 = 0)
               /\ (n1 = 4 -> r4 = 0 /\ n4 <= 23)).
  { subst n400 r1 n100 r2 n4 r3 n1 r4. Z.div_mod_to_equations. lia. }
  clearbody n400 r1 n100 r2 n4 r3 n1 r4.
  destruct Hk as (Hk & H400 & H100 & H4 & H1 & Hr4 & Hc & Hy).
  destruct ((n1 =? 4) || (n100 =? 4)) eqn:Hspecial.
  - (* the last day of a leap year *)
    exists (n400 * 400 + 1 + n100 * 100 + n4 * 4 + n1 - 1), 12, 31.
    split; [reflexivity|]. split; [lia|]. split; [lia|].
    assert (Hleap : _is_leap (n400 * 400 + 1 + n100 * 100 + n4 * 4 + n1 - 1)
                    = true).
    { unfold _is_leap. Z.div_mod_to_equations. lia. }
    split.
    + unfold _days_in_month. simpl. lia.
    + unfold _ymd2ord, _days_before_month. rewrite Hleap. simpl.
      unfold _days_before_year. Z.div_mod_to_equations. lia.
  - assert (H100' : 0 <= n100 <= 3) by lia.
    assert (H1' : 0 <= n1 <= 3) by lia.
    replace (n400 * 400 + 1 + n100 * 100 + n4 * 4 + n1)
      with (400 * n400 + 100 * n100 + 4 * n4 + n1 + 1) by lia.
    rewrite <- (_is_leap_split n400 n100 n4 n1) by assumption.
    destruct (_month_day_spec (400 * n400 + 100 * n100 + 4 * n4 + n1 + 1)
                r4 Hr4) as (m & d & -> & Hm & Hd & Hsum).
    exists (400 * n400 + 100 * n100 + 4 * n4 + n1 + 1), m, d.
    split; [reflexivity|]. split; [lia|]. split; [lia|]. split; [lia|].
    unfold _ymd2ord. rewrite _days_before_year_split by assumption. lia.
Qed.

Lemma _ymd2ord_bounds y m d :
  1 <= y <= 9999 -> 1 <= m <= 12 -> 1 <= d <= _days_in_month y m ->
  1 <= _ymd2ord y m d <= _MAXORDINAL.
Proof.
  intros Hy Hm Hd.
  destruct (month_tables y m Hm) as (_ & Hpos & Hyear).
  pose proof (_days_before_year_next y) as Hnext.
  pose proof (_days_before_year_mono (y + 1) 10000 ltac:(lia)) as Hmono.
  pose proof (_days_before_year_mono 1 y ltac:(lia)) as Hlow.
  change (_days_before_year 10000) with 3652059 in Hmono.
  change (_days_before_year 1) with 0 in Hlow.
  unfold _ymd2ord, _MAXORDINAL. lia.
Qed.

(** A date inside the supported range has a year up to 9999. *)
Lemma _ord2ymd_year n y m d :
  1 <= n <= _MAXORDINAL -> _ord2ymd n = (y, m, d) -> 1 <= y <= 9999.
Proof.
  intros Hn Heq.
  destruct (_ord2ymd_spec n ltac:(lia))
    as (y' & m' & d' & Heq' & Hy & Hm & Hd & Hord).
  rewrite Heq in Heq'. injection Heq' as <- <- <-.
  split; [assumption|].
  destruct (Z_le_gt_dec y 9999) as [|Hbig]; [assumption|exfalso].
  pose proof (_days_before_year_mono 10000 y ltac:(lia)) as Hmono.
  change (_days_before_year 10000) with 3652059 in Hmono.
  destruct (month_tables y m Hm) as (_ & Hpos & _).
  unfold _ymd2ord, _MAXORDINAL in *. lia.
Qed.

End Calendar.

(** ** The next even hour *)

Section NextEvenHour.
Local Open Scope Z_scope.

Lemma toordinal_bounds t :
  valid_datetime t -> 1 <= toordinal t <= _MAXORDINAL.
Proof.
  intros (Hy & Hm & Hd & _). now apply _ymd2ord_bounds.
Qed.

(** The top of the current hour plus one or two hours. *)
Lemma hour_boundary_after now ahead :
  valid_datetime now ->
  1 <= ahead <= 2 ->
  toordinal now < _MAXORDINAL \/ hour now + ahead < 24 ->
  exists nxt,
    datetime_add (replace_to_hour now) (timedelta_hours ahead) = Some nxt
    /\ valid_datetime nxt
    /\ toordinal nxt = toordinal now + (hour now + ahead) / 24
    /\ hour nxt = (hour now + ahead) mod 24
    /\ minute nxt = 0 /\ second nxt = 0 /\ microsecond nxt = 0.
Proof.
  intros Hvalid Hahead Hroom.
  pose proof (toordinal_bounds now Hvalid) as Hord.
  destruct Hvalid as (_ & _ & _ & Hh & _).
  unfold datetime_add, to_microseconds, timedelta_hours.
  change (toordinal (replace_to_hour now)) with (toordinal now).
  cbn [replace_to_hour hour minute second microsecond].
  unfold US_PER_DAY, US_PER_HOUR, US_PER_SECOND.
  set (total := toordinal now * 86400000000
                + ((hour now * 60 + 0) * 60 + 0) * 1000000 + 0
                + ahead * 3600000000).
  assert (Hdays : total / 86400000000
                  = toordinal now + (hour now + ahead) / 24).
  { subst total. Z.div_mod_to_equations. lia. }
  assert (Hrem : total mod 86400000000
                 = ((hour now + ahead) mod 24) * 3600000000).
  { subst total. Z.div_mod_to_equations. lia. }
  rewrite Hdays, Hrem. clearbody total.
  set (days := toordinal now + (hour now + ahead) / 24).
  set (h := (hour now + ahead) mod 24).
  assert (Hh' : 0 <= h < 24) by (subst h; apply Z.mod_pos_bound; lia).
  assert (Hdays' : 1 <= days <= _MAXORDINAL).
  { subst days. unfold _MAXORDINAL in *. Z.div_mod_to_equations. lia. }
  assert (Hin : (0 <? days) && (days <=? _MAXORDINAL) = true) by lia.
  rewrite Hin.
  destruct (_ord2ymd_spec days ltac:(lia))
    as (y & m & d & Heq & Hy & Hm & Hd & Hback).
  pose proof (_ord2ymd_year days y m d Hdays' Heq) as Hy'.
  rewrite Heq.
  eexists. split; [reflexivity|].
  clearbody h days.
  unfold valid_datetime, toordinal.
  cbn [year month day hour minute second microsecond].
  repeat apply conj; try assumption; try lia.
  all: Z.div_mod_to_equations; lia.
Qed.

Lemma datetime_le_base now :
  datetime_le now (replace_to_hour now) = true
  <-> minute now = 0 /\ second now = 0 /\ microsecond now = 0
      \/ minute now < 0
      \/ minute now = 0 /\ second now < 0
      \/ minute now = 0 /\ second now = 0 /\ microsecond now < 0.
Proof.
  unfold datetime_le, fields, replace_to_hour. cbn [lex_le year month day hour
    minute second microsecond].
  rewrite !Z.ltb_irrefl.
  destruct (Z.ltb_spec (minute now) 0); [split; [lia|reflexivity]|].
  destruct (Z.ltb_spec 0 (minute now)); [split; [discriminate|lia]|].
  destruct (Z.ltb_spec (second now) 0); [split; [lia|reflexivity]|].
  destruct (Z.ltb_spec 0 (second now)); [split; [discriminate|lia]|].
  destruct (Z.ltb_spec (microsecond now) 0); [split; [lia|reflexivity]|].
  destruct (Z.ltb_spec 0 (microsecond now)); [split; [discriminate|lia]|].
  split; [lia|reflexivity].
Qed.

(** C4: the function returns the delay from now to an even-hour boundary,
    never less than one second.  The boundary lies two hours after the top
    of the current hour when that hour is even, whether the instant is
    exactly at its top or after it, and one hour after it when the hour is
    odd.  At 2024-01-01T01:30:00Z the delay is 30 minutes (to 02:00:00Z), at
    02:00:00Z it is 2 hours (to 04:00:00Z), at 03:59:59Z it is 1 second (to
    04:00:00Z).  Delays are counted in microseconds. *)
Theorem C4_next_even_hour :
  (forall now,
      valid_datetime now ->
      toordinal now < _MAXORDINAL \/ hour now < 22 ->
      let into_hour :=
        (minute now * 60 + second now) * US_PER_SECOND + microsecond now in
      let ahead := if hour now mod 2 =? 0 then 2 else 1 in
      exists nxt,
        datetime_add (replace_to_hour now) (timedelta_hours ahead) = Some nxt
        /\ valid_datetime nxt
        /\ (hour nxt mod 2 = 0 /\ minute nxt = 0 /\ second nxt = 0
            /\ microsecond nxt = 0)
        /\ to_microseconds nxt
           = to_microseconds (replace_to_hour now) + ahead * US_PER_HOUR
        /\ datetime_sub nxt now = ahead * US_PER_HOUR - into_hour
        /\ _seconds_until_next_even_utc_hour now
           = Some (Z.max (1 * US_PER_SECOND) (datetime_sub nxt now))
        /\ (datetime_le now (replace_to_hour now) = true <-> into_hour = 0)
        /\ (into_hour = 0 -> hour now mod 2 = 0 ->
            _seconds_until_next_even_utc_hour now = Some (2 * US_PER_HOUR))
        /\ (forall delay,
              _seconds_until_next_even_utc_hour now = Some delay ->
              1 * US_PER_SECOND <= delay))
  /\ (datetime_add (replace_to_hour (at_2024_01_01 1 30 0)) (timedelta_hours 1)
      = Some (at_2024_01_01 2 0 0)
      /\ _seconds_until_next_even_utc_hour (at_2024_01_01 1 30 0)
         = Some (30 * 60 * US_PER_SECOND))
  /\ (datetime_add (replace_to_hour (at_2024_01_01 2 0 0)) (timedelta_hours 2)
      = Some (at_2024_01_01 4 0 0)
      /\ _seconds_until_next_even_utc_hour (at_2024_01_01 2 0 0)
         = Some (2 * US_PER_HOUR))
  /\ (datetime_add (replace_to_hour (at_2024_01_01 3 59 59)) (timedelta_hours 1)
      = Some (at_2024_01_01 4 0 0)
      /\ _seconds_until_next_even_utc_hour (at_2024_01_01 3 59 59)
         = Some (1 * US_PER_SECOND)).
Proof.
  split; [|repeat split; vm_compute; reflexivity].
  intros now Hvalid Hroom into_hour ahead.
  assert (Hahead : 1 <= ahead <= 2)
    by (subst ahead; destruct (hour now mod 2 =? 0); lia).
  destruct (hour_boundary_after now ahead Hvalid Hahead ltac:(lia))
    as (nxt & Hadd & Hnxt & Hord & Hhour & Hmin & Hsec & Hus).
  pose proof Hvalid as (_ & _ & _ & Hh & Hmi & Hse & Hmu).
  assert (Hsub : datetime_sub nxt now = ahead * US_PER_HOUR - into_hour).
  { unfold datetime_sub. rewrite Hord, Hhour, Hmin, Hsec, Hus.
    subst into_hour. unfold US_PER_DAY, US_PER_HOUR, US_PER_SECOND.
    clearbody ahead. Z.div_mod_to_equations. lia. }
  assert (Hresult : _seconds_until_next_even_utc_hour now
                    = Some (Z.max (1 * US_PER_SECOND) (datetime_sub nxt now))).
  { unfold _seconds_until_next_even_utc_hour.
    change (hour (replace_to_hour now)) with (hour now).
    subst ahead.
    destruct (datetime_le now (replace_to_hour now));
      destruct (hour now mod 2 =? 0); now rewrite Hadd. }
  exists nxt.
  split; [exact Hadd|]. split; [exact Hnxt|]. split; [|split; [|split]].
  - repeat apply conj; try assumption.
    rewrite Hhour. subst ahead.
    destruct (Z.eqb_spec (hour now mod 2) 0); Z.div_mod_to_equations; lia.
  - unfold to_microseconds.
    change (toordinal (replace_to_hour now)) with (toordinal now).
    cbn [replace_to_hour hour minute second microsecond].
    rewrite Hord, Hhour, Hmin, Hsec, Hus.
    unfold US_PER_DAY, US_PER_HOUR, US_PER_SECOND.
    clearbody ahead. Z.div_mod_to_equations. lia.
  - exact Hsub.
  - split; [exact Hresult|]. split; [|split].
    + rewrite datetime_le_base. subst into_hour. unfold US_PER_SECOND. lia.
    + intros Hzero Heven. rewrite Hresult, Hsub. subst ahead.
      rewrite (proj2 (Z.eqb_eq _ _) Heven). f_equal.
      unfold US_PER_SECOND, US_PER_HOUR in *. lia.
    + intros delay. rewrite Hresult. intros [= <-]. lia.
Qed.

(** At 01:30 on New Year's Day 2024 the next boundary is half an hour
    away. *)
Lemma C4_half_past_one :
  valid_datetime (at_2024_01_01 1 30 0)
  /\ hour (at_2024_01_01 1 30 0) < 22
  /\ exists nxt,
       datetime_add (replace_to_hour (at_2024_01_01 1 30 0)) (timedelta_hours 1)
       = Some nxt
       /\ _seconds_until_next_even_utc_hour (at_2024_01_01 1 30 0)
          = Some (Z.max (1 * US_PER_SECOND)
                    (datetime_sub nxt (at_2024_01_01 1 30 0))).
Proof.
  assert (Hvalid : valid_datetime (at_2024_01_01 1 30 0)).
  { unfold valid_datetime, at_2024_01_01.
    cbn [year month day hour minute second microsecond].
    change (_days_in_month 2024 1) with 31. lia. }
  assert (Hroom : toordinal (at_2024_01_01 1 30 0) < _MAXORDINAL
                  \/ hour (at_2024_01_01 1 30 0) < 22)
    by (right; unfold at_2024_01_01; simpl; lia).
  split; [exact Hvalid|]. split; [unfold at_2024_01_01; simpl; lia|].
  destruct (proj1 C4_next_even_hour (at_2024_01_01 1 30 0) Hvalid Hroom)
    as (nxt & Hadd & _ & _ & _ & _ & Hresult & _).
  exists nxt. split; [exact Hadd|exact Hresult].
Defined.

End NextEvenHour.

(** ** Worked examples *)

(** The payload built on a healthy host on New Year's Day 2024. *)
Lemma C7_payload_on_a_healthy_host :
  let c := host ∅ LoopRunning in
  valid_datetime (utcnow c) /\ (1000 <= year (utcnow c))%Z
  /\ exists rid p' payload,
       _ensure_instance_id c (fresh_process ∅) = (Ok rid, p')
       /\ _make_payload c (fresh_process ∅) = (Ok payload, p')
       /\ map fst payload = ["id"; "date"; "projectname"; "project"; "count"]
       /\ ~ occurs_in rid (json_dumps "," ":" payload).
Proof.
  assert (Hvalid : valid_datetime (utcnow (host ∅ LoopRunning))).
  { unfold valid_datetime, host, at_2024_01_01.
    cbn [utcnow year month day hour minute second microsecond].
    change (_days_in_month 2024 1) with 31%Z. lia. }
  assert (Hyear : (1000 <= year (utcnow (host ∅ LoopRunning)))%Z)
    by (unfold host, at_2024_01_01; simpl; lia).
  split; [exact Hvalid|]. split; [exact Hyear|].
  destruct (C7_payload_shape (host ∅ LoopRunning) (fresh_process ∅)
              Hvalid Hyear)
    as (rid & p' & digest & yyyy & mm & dd & payload
        & Hid & Hpay & _ & Hkeys & _ & _ & _ & _ & Hraw).
  exists rid, p', payload.
  split; [exact Hid|]. split; [exact Hpay|]. split; [exact Hkeys|].
  apply (Hraw 0%nat).
  assert (Hrid : fst (_ensure_instance_id (host ∅ LoopRunning) (fresh_process ∅))
                 = Ok (nth_uuid (host ∅ LoopRunning) 0))
    by (vm_compute; reflexivity).
  rewrite Hid in Hrid. simpl in Hrid. congruence.
Defined.

Example sha256_of_abc :
  _hash_id "abc"
  = "ba7816bf8f01cfea414140de5dae2223b00361a396177a9cb410ff61f20015ad".
Proof. vm_compute. reflexivity. Qed.

Example sha256_of_the_empty_string :
  _hash_id ""
  = "e3b0c44298fc1c149afbf4c8996fb92427ae41e4649b934ca495991b7852b855".
Proof. vm_compute. reflexivity. Qed.

Example sha256_of_two_blocks :
  _hash_id "abcdbcdecdefdefgefghfghighijhijkijkljklmklmnlmnomnopnopq"
  = "248d6a61d20638b8e5c026930c3e6039a33ce45964ff2167f6ecedd419db06c1".
Proof. vm_compute. reflexivity. Qed.

Example uuid4_of_zero_entropy :
  uuid_str (uuid4_int 0) = "00000000-0000-4000-8000-000000000000".
Proof. vm_compute. reflexivity. Qed.

Example uuid4_of_full_entropy :
  uuid_str (uuid4_int (2 ^ 128 - 1)) = "ffffffff-ffff-4fff-bfff-ffffffffffff".
Proof. vm_compute. reflexivity. Qed.

Example ordinal_of_new_year_2024 :
  _ymd2ord 2024 1 1 = 738886%Z /\ _ord2ymd 738886 = (2024, 1, 1)%Z.
Proof. split; reflexivity. Qed.

Example truthy_padded_upper : _env_truthy (Some "  YeS ") = true.
Proof. reflexivity. Qed.

Example compact_payload_text :
  json_dumps "," ":" [("date", JStr "2024-01-01"); ("count", JInt 1)]
  = string_of_list_ascii
      ("{"%char :: quote_char :: list_ascii_of_string "date"
       ++ quote_char :: ":"%char :: quote_char
       :: list_ascii_of_string "2024-01-01"
       ++ quote_char :: ","%char :: quote_char :: list_ascii_of_string "count"
       ++ quote_char :: list_ascii_of_string ":1}").
Proof. vm_compute. reflexivity. Qed.

(** The send on a healthy host that has not opted out: the identifier is
    created, and one compact payload goes to the default endpoint. *)
Example send_on_a_healthy_host :
  omap dispatched_to
    (trace (snd (maybe_send_telemetry_async (host ∅ LoopRunning)
                   (fresh_process ∅))))
  = [_DEFAULT_ENDPOINT]
  /\ files (snd (maybe_send_telemetry_async (host ∅ LoopRunning)
                   (fresh_process ∅))) !! "/srv/app/.telemetry_id"
     = Some "00000000-0000-4000-8000-000000000001".
Proof. vm_compute. split; reflexivity. Qed.

(** A tick that fails: in the last hour of year 9999 the next boundary is
    out of range, the tick raises, and the loop backs off and goes on. *)
Example tick_error_backs_off :
  let last_hour :=
    {| year := 9999; month := 12; day := 31;
       hour := 23; minute := 0; second := 0; microsecond := 0 |} in
  let c :=
    {| environ := ∅; module_state_file := "/srv/app/.telemetry_id";
       utcnow := last_hour; urandom := fun _ => 0%Z; faults := no_faults;
       event_loop := LoopRunning; urlopen := fun _ _ _ => Responds 200;
       in_flight := Resumed; job_started := true |} in
  let t := {| at_start := c; sleep_ends := Resumed; at_wake := c;
              backoff_ends := Resumed |} in
  tick_body t (fresh_process ∅) = (Raise (Exc OverflowError), fresh_process ∅)
  /\ fst (loop_iteration t (fresh_process ∅)) = Looping
  /\ trace (snd (loop_iteration t (fresh_process ∅))) = [Slept BACKOFF].
Proof. vm_compute. repeat split; reflexivity. Qed.

(** * Further properties of the module *)

(** ** Policy *)

(** X2: no value is both truthy and falsy. *)
Theorem X2_truthy_and_falsy_exclude_each_other :
  forall v, _env_truthy v && _env_falsy v = false.
Proof.
  intros v. unfold _env_truthy, _env_falsy.
  set (s := str_lower (str_strip (or_str v ""))). clearbody s.
  destruct (bool_decide (s ∈ truthy_tokens)) eqn:Ht; [|reflexivity].
  apply bool_decide_eq_true in Ht. simpl. apply bool_decide_eq_false.
  intros Hf. apply list_elem_of_In in Ht, Hf. simpl in Ht, Hf.
  intuition (subst; discriminate).
Qed.

Lemma lookup_other_than_TELEMETRY (env : gmap string string) tel k :
  k <> "TELEMETRY" ->
  <["TELEMETRY" := tel]> env !! k = delete "TELEMETRY" env !! k.
Proof.
  intros Hk. rewrite lookup_insert_ne, lookup_delete_ne by congruence.
  reflexivity.
Qed.

(** X3: a value of TELEMETRY that is not falsy counts like no value at all:
    it cannot switch reporting back on against an opt-out variable. *)
Theorem X3_telemetry_not_falsy_counts_as_unset :
  forall (env : gmap string string) tel,
    _env_falsy (Some tel) = false ->
    _env_opt_out (<["TELEMETRY" := tel]> env)
    = _env_opt_out (delete "TELEMETRY" env).
Proof.
  intros env tel Hnot. unfold _env_opt_out.
  rewrite !lookup_other_than_TELEMETRY by (unfold _OPTOUT_ENV_VAR; discriminate).
  rewrite lookup_insert_eq, lookup_delete_eq, Hnot. reflexivity.
Qed.

(** TELEMETRY=1 beside TELEMETRY_OPTOUT=yes: still opted out. *)
Lemma X3_enable_beside_opt_out :
  _env_falsy (Some "1") = false
  /\ _env_opt_out (<["TELEMETRY" := "1"]> {[ "TELEMETRY_OPTOUT" := "yes" ]})
     = _env_opt_out (delete "TELEMETRY" {[ "TELEMETRY_OPTOUT" := "yes" ]}).
Proof.
  split; [reflexivity|].
  apply (X3_telemetry_not_falsy_counts_as_unset
           {[ "TELEMETRY_OPTOUT" := "yes" ]} "1").
  reflexivity.
Defined.

(** ** The state file path *)

Lemma or_str_empty_iff (v : option string) :
  or_str v "" = "" <-> unset_or_empty v.
Proof.
  unfold unset_or_empty. destruct v as [s|]; simpl.
  - unfold str_bool. destruct (String.eqb_spec s ""); simpl.
    + subst. split; auto.
    + split; [congruence|]. intros [H|H]; congruence.
  - split; auto.
Qed.

Lemma or_str_given (s : string) : s <> "" -> or_str (Some s) "" = s.
Proof. intros H. simpl. apply str_bool_true in H. now rewrite H. Qed.

(** X1: the state file is the file override when one is given; else the
    file [.telemetry_id] in the directory override, joined without a doubled
    separator; else the default beside the module.  An override set to the
    empty string counts as not given.  Resolving the path changes nothing
    in the process but its log. *)
Theorem X1_state_file_resolution :
  forall c, exists path,
    (forall p, exists evs,
        _get_state_file c p = (Ok path, with_trace (trace p ++ evs) p)
        /\ Forall (fun e => is_log e = true) evs)
    /\ (forall f,
          environ c !! "TELEMETRY_STATE_FILE" = Some f -> f <> "" -> path = f)
    /\ (unset_or_empty (environ c !! "TELEMETRY_STATE_FILE") ->
        forall d,
          environ c !! "TELEMETRY_STATE_DIR" = Some d -> d <> "" ->
          path = (d ++ (if ends_with_sep d then "" else "/")
                  ++ ".telemetry_id")%string)
    /\ (unset_or_empty (environ c !! "TELEMETRY_STATE_FILE") ->
        unset_or_empty (environ c !! "TELEMETRY_STATE_DIR") ->
        path = module_state_file c).
Proof.
  intros c. unfold _get_state_file.
  destruct (str_bool (or_str (environ c !! "TELEMETRY_STATE_FILE") ""))
    eqn:Hfile.
  - apply str_bool_true in Hfile.
    exists (or_str (environ c !! "TELEMETRY_STATE_FILE") "").
    split; [|split; [|split]].
    + intros p. eexists [_]. split; [reflexivity|]. repeat constructor.
    + intros f Hf Hne. rewrite Hf. now apply or_str_given.
    + intros Hunset. now apply or_str_empty_iff in Hunset.
    + intros Hunset. now apply or_str_empty_iff in Hunset.
  - apply str_bool_false in Hfile.
    destruct (str_bool (or_str (environ c !! "TELEMETRY_STATE_DIR") ""))
      eqn:Hdir.
    + apply str_bool_true in Hdir.
      exists (os_path_join (or_str (environ c !! "TELEMETRY_STATE_DIR") "")
                ".telemetry_id").
      split; [|split; [|split]].
      * intros p. eexists [_]. split; [reflexivity|]. repeat constructor.
      * intros f Hf Hne. rewrite Hf, or_str_given in Hfile by assumption.
        congruence.
      * intros _ d Hd Hne. rewrite Hd, or_str_given by assumption.
        unfold os_path_join. apply str_bool_true in Hne. rewrite Hne. simpl.
        destruct (ends_with_sep d); reflexivity.
      * intros _ Hunset. now apply or_str_empty_iff in Hunset.
    + apply str_bool_false in Hdir.
      exists (module_state_file c).
      split; [|split; [|split]].
      * intros p. exists []. split; [|constructor].
        unfold ret. now rewrite with_trace_nil.
      * intros f Hf Hne. rewrite Hf, or_str_given in Hfile by assumption.
        congruence.
      * intros _ d Hd Hne. rewrite Hd, or_str_given in Hdir by assumption.
        congruence.
      * reflexivity.
Qed.

(** ** The identity store *)

Lemma _get_state_file_logs c :
  exists path evs,
    Forall (fun e => is_log e = true) evs
    /\ forall p, _get_state_file c p = (Ok path, with_trace (trace p ++ evs) p).
Proof.
  unfold _get_state_file.
  destruct (str_bool (or_str (environ c !! "TELEMETRY_STATE_FILE") "")).
  - eexists _, [_]. split; [|intros p; reflexivity]. repeat constructor.
  - destruct (str_bool (or_str (environ c !! "TELEMETRY_STATE_DIR") "")).
    + eexists _, [_]. split; [|intros p; reflexivity]. repeat constructor.
    + exists (module_state_file c), []. split; [constructor|].
      intros p. unfold ret. now rewrite with_trace_nil.
Qed.

(** What one call of the identity store does to the process. *)
Lemma _ensure_instance_id_footprint c p :
  exists path,
    (forall q, fst (_get_state_file c q) = Ok path)
    /\ store_step path p (snd (_ensure_instance_id c p)).
Proof.
  destruct (_get_state_file_logs c) as (path & evs & Hlogs & Hpath).
  exists path. split; [intros q; now rewrite Hpath|].
  unfold _ensure_instance_id, bind, try_except. rewrite Hpath.
  unfold os_path_exists, read_text, write_text, makedirs_parent, uuid4,
    log, emit, ret, bind, try_except.
  simpl.
  destruct (faults c) as [rf mf opf wf]; simpl.
  destruct (files p !! path) as [content|] eqn:Hfile; simpl.
  all: destruct rf, mf, opf, wf; repeat (rewrite ?Hfile; simpl).
  all: rewrite ?read_usable.
  all: try (destruct (str_bool (str_strip content));
            repeat (rewrite ?Hfile; simpl)).
  all: unfold store_step, same_flags; simpl.
  all: split; [repeat split|]; split; [|split; [|lia]].
  all: try (rewrite <- ?app_assoc; eexists; split; [reflexivity|];
            repeat (apply Forall_app; split); try assumption;
            repeat constructor).
  all: intros other Hne; rewrite ?lookup_insert_ne by congruence;
    reflexivity.
Qed.

(** X10: one call of the identity store changes no module flag, adds only
    log lines to the trace, leaves every file other than the state file as
    it was, and draws at most two identifiers. *)
Theorem X10_identity_store_footprint :
  forall c p, exists path,
    (forall q, fst (_get_state_file c q) = Ok path)
    /\ same_flags p (snd (_ensure_instance_id c p))
    /\ (exists evs,
          trace (snd (_ensure_instance_id c p)) = trace p ++ evs
          /\ Forall (fun e => is_log e = true) evs)
    /\ (forall other,
          other <> path ->
          files (snd (_ensure_instance_id c p)) !! other = files p !! other)
    /\ draws p <= draws (snd (_ensure_instance_id c p)) <= draws p + 2.
Proof.
  intros c p.
  destruct (_ensure_instance_id_footprint c p) as (path & Hpath & Hstep).
  exists path. split; [exact Hpath|exact Hstep].
Qed.

Lemma hex_char_not_space c : is_hex_char c = true -> isspace c = false.
Proof.
  destruct c as [[] [] [] [] [] [] [] []]; vm_compute; congruence.
Qed.

(** A generated identifier has no whitespace in it and is not empty. *)
Lemma uuid_str_no_space i :
  Forall (fun c => isspace c = false) (list_ascii_of_string (uuid_str i)).
Proof.
  unfold uuid_str. rewrite list_ascii_of_string_of_list_ascii.
  assert (Hhex : Forall (fun c => isspace c = false) (hex_fixed 32 i)).
  { eapply Forall_impl; [apply hex_fixed_is_hex|].
    intros c. apply hex_char_not_space. }
  repeat (apply Forall_app; split);
    first [ now apply Forall_take | now apply Forall_drop
          | now apply Forall_take, Forall_drop
          | repeat constructor ].
Qed.

Lemma universal_newlines_uuid i :
  universal_newlines (uuid_str i) = uuid_str i.
Proof.
  unfold universal_newlines.
  rewrite (newlines_kept _ (uuid_str_no_space i)).
  apply string_of_list_ascii_of_string.
Qed.

Lemma uuid_str_stripped i :
  str_strip (uuid_str i) = uuid_str i /\ uuid_str i <> "".
Proof.
  pose proof (uuid_str_no_space i) as Hns.
  assert (Hne : list_ascii_of_string (uuid_str i) <> []).
  { unfold uuid_str. rewrite list_ascii_of_string_of_list_ascii.
    destruct (take 8 (hex_fixed 32 i)); discriminate. }
  split.
  - unfold str_strip.
    rewrite (trimmed_unique (list_ascii_of_string (uuid_str i))
               (list_ascii_of_string (uuid_str i))).
    + apply string_of_list_ascii_of_string.
    + generalize dependent (list_ascii_of_string (uuid_str i)).
      intros u Hns _. exists [], [].
      split; [now rewrite app_nil_r|]. split; [constructor|].
      split; [constructor|]. split.
      * intros c rest Heq. rewrite Heq in Hns. now inversion Hns.
      * intros c front Heq. rewrite Heq in Hns.
        apply Forall_app in Hns as [_ Hc]. now inversion Hc.
  - intros Heq. apply Hne. now rewrite Heq.
Qed.

(** Reading back a usable state file. *)
Lemma _ensure_instance_id_reads c p path content :
  (forall q, fst (_get_state_file c q) = Ok path) ->
  files p !! path = Some content ->
  read_fails (faults c) = false ->
  str_strip (universal_newlines content) <> "" ->
  exists p',
    _ensure_instance_id c p = (Ok (str_strip (universal_newlines content)), p')
    /\ files p' = files p /\ draws p' = draws p.
Proof.
  intros Hres Hfile Hr Hraw.
  destruct (_get_state_file_logs c) as (path' & evs & _ & Hpath).
  assert (path' = path) as ->.
  { specialize (Hres p). rewrite Hpath in Hres. simpl in Hres. congruence. }
  apply str_bool_true in Hraw.
  unfold _ensure_instance_id, bind, try_except. rewrite Hpath.
  unfold os_path_exists, read_text, log, emit, ret, bind.
  repeat (rewrite ?Hfile, ?Hr, ?Hraw; simpl).
  eexists. split; [reflexivity|]. split; reflexivity.
Qed.

(** After a call on a working file system the state file holds the
    identifier returned, up to surrounding whitespace. *)
Lemma _ensure_instance_id_leaves c p :
  file_system_works c ->
  exists path id p1 content,
    (forall q, fst (_get_state_file c q) = Ok path)
    /\ _ensure_instance_id c p = (Ok id, p1)
    /\ files p1 !! path = Some content
    /\ str_strip (universal_newlines content) = id /\ id <> "".
Proof.
  intros (Hr & Ho & Hw).
  destruct (_get_state_file_logs c) as (path & evs & _ & Hpath).
  exists path.
  unfold _ensure_instance_id, bind, try_except. rewrite Hpath.
  unfold os_path_exists, read_text, write_text, makedirs_parent, uuid4,
    log, emit, ret, bind, try_except.
  simpl. rewrite Hr, Ho, Hw.
  destruct (uuid_str_stripped (uuid4_int (urandom c (draws p))))
    as [Hstrip Hne].
  pose proof (universal_newlines_uuid (uuid4_int (urandom c (draws p))))
    as Hread.
  destruct (makedirs_fails (faults c)); simpl.
  all: destruct (files p !! path) as [content|] eqn:Hfile;
    repeat (rewrite ?Hfile; simpl).
  all: try (destruct (str_bool (str_strip (universal_newlines content)))
              eqn:Hraw;
            [apply str_bool_true in Hraw|];
            repeat (rewrite ?Hfile; simpl)).
  all: eexists _, _, _;
    (split; [intros q; now rewrite Hpath|]);
    (split; [reflexivity|]); simpl;
    rewrite ?lookup_insert_eq;
    first [ split; [exact Hfile|]; now split
          | split; [reflexivity|]; unfold nth_uuid; rewrite Hread;
            now split ].
Qed.

(** X9: on a working file system the identifier is stable: a call made
    after a first call returns the same identifier, draws nothing and
    leaves the files as they are. *)
Theorem X9_identity_is_stable :
  forall c p,
    file_system_works c ->
    exists id p1 p2,
      _ensure_instance_id c p = (Ok id, p1)
      /\ _ensure_instance_id c p1 = (Ok id, p2)
      /\ id <> ""
      /\ files p2 = files p1 /\ draws p2 = draws p1.
Proof.
  intros c p Hworks.
  destruct (_ensure_instance_id_leaves c p Hworks)
    as (path & id & p1 & content & Hpath & Hfirst & Hfile & Hstrip & Hne).
  destruct Hworks as (Hr & _ & _).
  destruct (_ensure_instance_id_reads c p1 path content Hpath Hfile Hr)
    as (p2 & Hsecond & Hfiles & Hdraws); [congruence|].
  exists id, p1, p2. rewrite Hstrip in Hsecond. auto.
Qed.

(** The identifier on a healthy host, asked for twice. *)
Lemma X9_stable_on_a_healthy_host :
  file_system_works (host ∅ LoopRunning)
  /\ exists id p1 p2,
       _ensure_instance_id (host ∅ LoopRunning) (fresh_process ∅) = (Ok id, p1)
       /\ _ensure_instance_id (host ∅ LoopRunning) p1 = (Ok id, p2)
       /\ id <> ""
       /\ files p2 = files p1 /\ draws p2 = draws p1.
Proof.
  assert (Hworks : file_system_works (host ∅ LoopRunning))
    by (repeat split).
  split; [exact Hworks|].
  exact (X9_identity_is_stable (host ∅ LoopRunning) (fresh_process ∅) Hworks).
Defined.

(** ** Sending once *)

Lemma endpoint_is_given (env : gmap string string) :
  str_bool (_get_endpoint env) = true.
Proof.
  apply str_bool_true, or_str_nonempty. discriminate.
Qed.

(** Past the gate the send builds the payload and tries to post it. *)
Lemma async_past_the_gate c :
  _env_opt_out (environ c) = false ->
  maybe_send_telemetry_async c
  = (payload <- _make_payload c ;;
     try_except
       (get_running_loop c ;;
        log DEBUG "telemetry POST -> %s (async, %d bytes)" ;;
        run_in_executor c
          (_post_sync c (_get_endpoint (environ c))
             (encode_utf8 (json_dumps "," ":" payload)) DEFAULT_TIMEOUT))
       (fun _ => ret tt)).
Proof.
  intros Hopt. unfold maybe_send_telemetry_async.
  rewrite endpoint_is_given, Hopt. reflexivity.
Qed.

(** X4: a send that finds the user opted out does nothing but write one
    log line, at INFO level the first time and at DEBUG level afterwards:
    it returns normally, posts nothing, draws no identifier and touches no
    file. *)
Theorem X4_opted_out_send_only_logs :
  forall c p,
    _env_opt_out (environ c) = true ->
    exists msg p',
      maybe_send_telemetry_async c p = (Ok tt, p')
      /\ trace p'
         = trace p ++ [Log (if _HAS_LOGGED_SKIP p then DEBUG else INFO) msg]
      /\ _HAS_LOGGED_SKIP p' = true
      /\ files p' = files p /\ draws p' = draws p
      /\ dispatches (trace p') = dispatches (trace p).
Proof.
  intros c p Hopt. unfold maybe_send_telemetry_async.
  rewrite Hopt, orb_true_r.
  destruct (_HAS_LOGGED_SKIP p) eqn:Hflag; simpl;
    eexists _, _; (split; [reflexivity|]); simpl;
    unfold dispatches; rewrite filter_app; simpl;
    rewrite ?app_nil_r; auto.
Qed.

(** A send on a host whose user has opted out. *)
Lemma X4_opted_out_host :
  _env_opt_out (environ (host {[ "TELEMETRY" := "off" ]} LoopRunning)) = true
  /\ exists msg p',
       maybe_send_telemetry_async (host {[ "TELEMETRY" := "off" ]} LoopRunning)
         (fresh_process ∅) = (Ok tt, p')
       /\ trace p' = [Log INFO msg]
       /\ files p' = ∅.
Proof.
  assert (Hopt : _env_opt_out
                   (environ (host {[ "TELEMETRY" := "off" ]} LoopRunning))
                 = true) by reflexivity.
  split; [exact Hopt|].
  destruct (X4_opted_out_send_only_logs
              (host {[ "TELEMETRY" := "off" ]} LoopRunning) (fresh_process ∅)
              Hopt)
    as (msg & p' & Hrun & Htrace & _ & Hfiles & _).
  exists msg, p'. split; [exact Hrun|]. split; [exact Htrace|exact Hfiles].
Defined.

Lemma try_except_ret_no_exception {A} (m : M A) (a : A) p e :
  fst (try_except m (fun _ => ret a) p) <> Raise (Exc e).
Proof.
  unfold try_except. destruct (m p) as [[x|[e'|]] p']; simpl; discriminate.
Qed.

Lemma async_raises_no_exception c p e :
  fst (maybe_send_telemetry_async c p) <> Raise (Exc e).
Proof.
  destruct (_env_opt_out (environ c)) eqn:Hopt.
  - destruct (async_skips_when_opted_out c p Hopt) as (l & msg & ->).
    discriminate.
  - rewrite async_past_the_gate by assumption.
    destruct (_make_payload_returns c p) as (rid & p1 & _ & Hpay).
    rewrite (bind_ok _ _ _ _ _ Hpay).
    apply try_except_ret_no_exception.
Qed.

(** X5: no exception of class Exception leaves the send, whatever the
    environment, the file system, the event loop and the network do; unless
    it is cancelled while it waits for the post, it returns normally. *)
Theorem X5_send_is_fail_silent :
  forall c p,
    (forall e, fst (maybe_send_telemetry_async c p) <> Raise (Exc e))
    /\ (in_flight c = Resumed -> fst (maybe_send_telemetry_async c p) = Ok tt).
Proof.
  intros c p. split; [intros e; apply async_raises_no_exception|].
  intros Hfl. pose proof (uncancelled_send c Hfl p) as Hunc.
  destruct (fst (maybe_send_telemetry_async c p)) as [[]|[e|]] eqn:Hres.
  - reflexivity.
  - exfalso. apply (async_raises_no_exception c p e). exact Hres.
  - now elim Hunc.
Qed.


(** The send that passes the gate and still makes no request: there is no
    running loop, or the endpoint has no scheme. *)
Lemma async_gives_up c p :
  _env_opt_out (environ c) = false ->
  exists payload p1,
    _make_payload c p = (Ok payload, p1)
    /\ (event_loop c <> LoopRunning ->
        maybe_send_telemetry_async c p = (Ok tt, p1))
    /\ (event_loop c = LoopRunning ->
        has_scheme (_get_endpoint (environ c)) = false ->
        exists msg,
          maybe_send_telemetry_async c p
          = (match in_flight c with
             | Resumed => Ok tt
             | Cancel => Raise CancelledError
             end,
             with_trace (trace p1 ++ [Log DEBUG msg]) p1)).
Proof.
  intros Hopt.
  destruct (_make_payload_returns c p) as (rid & p1 & _ & Hpay).
  eexists _, p1. split; [exact Hpay|].
  rewrite async_past_the_gate by assumption.
  rewrite (bind_ok _ _ _ _ _ Hpay).
  unfold try_except, bind, get_running_loop, run_in_executor, log, emit, ret.
  split.
  - intros Hloop. destruct (event_loop c); [reflexivity..|now elim Hloop].
  - intros Hloop Hscheme. rewrite Hloop. simpl.
    rewrite _post_sync_without_scheme by assumption.
    eexists. destruct (in_flight c); [|destruct (job_started c)];
      reflexivity.
Qed.



(** X7: a send that passes the gate but finds no running loop, or an
    endpoint without a scheme, makes no request and raises no error; the
    payload has been built all the same, so the identity store has run. *)
Theorem X7_send_gives_up_silently :
  forall c p,
    _env_opt_out (environ c) = false ->
    exists payload p1,
      _make_payload c p = (Ok payload, p1)
      /\ (event_loop c <> LoopRunning ->
          maybe_send_telemetry_async c p = (Ok tt, p1))
      /\ (event_loop c = LoopRunning ->
          has_scheme (_get_endpoint (environ c)) = false ->
          exists msg,
            maybe_send_telemetry_async c p
            = (match in_flight c with
               | Resumed => Ok tt
               | Cancel => Raise CancelledError
               end,
               with_trace (trace p1 ++ [Log DEBUG msg]) p1)).
Proof. intros c p. apply async_gives_up. Qed.

(** The endpoint [foo]: the identifier is created, nothing is posted. *)
Lemma X7_endpoint_without_scheme :
  let c := host {[ "TELEMETRY_ENDPOINT" := "foo" ]} LoopRunning in
  _env_opt_out (environ c) = false
  /\ has_scheme (_get_endpoint (environ c)) = false
  /\ exists p',
       maybe_send_telemetry_async c (fresh_process ∅) = (Ok tt, p')
       /\ is_Some (files p' !! "/srv/app/.telemetry_id")
       /\ dispatches (trace p') = [].
Proof.
  assert (Hopt : _env_opt_out
                   (environ (host {[ "TELEMETRY_ENDPOINT" := "foo" ]}
                               LoopRunning)) = false) by reflexivity.
  split; [exact Hopt|]. split; [reflexivity|].
  destruct (X7_send_gives_up_silently
              (host {[ "TELEMETRY_ENDPOINT" := "foo" ]} LoopRunning)
              (fresh_process ∅) Hopt)
    as (payload & p1 & Hpay & _ & Hrun).
  destruct (Hrun eq_refl eq_refl) as (msg & Hsend).
  eexists. split; [exact Hsend|].
  assert (Hp1 : snd (_make_payload
                       (host {[ "TELEMETRY_ENDPOINT" := "foo" ]} LoopRunning)
                       (fresh_process ∅)) = p1) by now rewrite Hpay.
  rewrite <- Hp1. vm_compute. split; [eauto|reflexivity].
Defined.

(** ** Transport *)

(** The fragment is cut before the scheme is sought: [foo#bar:baz] has
    none, and a colon in the fragment of a proper URL does no harm. *)
Example fragment_is_cut_first :
  has_scheme "foo#bar:baz" = false
  /\ has_scheme "http://host/path#a:b" = true
  /\ has_scheme "#http://host" = false.
Proof. repeat split; reflexivity. Qed.



(** ** Starting in the background, further *)

Lemma _make_payload_logs c p payload p1 :
  _make_payload c p = (Ok payload, p1) ->
  exists evs,
    trace p1 = trace p ++ evs /\ Forall (fun e => is_log e = true) evs.
Proof.
  intros H. destruct (_make_payload_returns c p) as (rid & p' & Hid & Hpay).
  rewrite Hpay in H. injection H as _ <-.
  destruct (_ensure_instance_id_footprint c p) as (path & _ & _ & Hlogs & _).
  rewrite Hid in Hlogs. exact Hlogs.
Qed.

Lemma dispatches_app (a b : list event) :
  dispatches (a ++ b) = dispatches a ++ dispatches b.
Proof. apply filter_app. Qed.

Lemma dispatches_logs (evs : list event) :
  Forall (fun e => is_log e = true) evs -> dispatches evs = [].
Proof.
  unfold dispatches. induction 1 as [|e evs He _ IH]; [reflexivity|].
  rewrite filter_cons. destruct (decide (is_dispatch e = true)) as [Hd|Hd].
  - destruct e; simpl in *; congruence.
  - exact IH.
Qed.

Lemma logs_are_no_requests (evs : list event) :
  Forall (fun e => is_log e = true) evs ->
  Forall (fun e => is_dispatch e = false) evs.
Proof.
  intros H. eapply Forall_impl; [exact H|].
  intros [] He; simpl in *; congruence.
Qed.

(** The eager identity step of the entry point only logs. *)
Lemma eager_identity_logs c p :
  exists q evs,
    try_except
      (_path <- _get_state_file c ;;
       _id <- _ensure_instance_id c ;;
       log INFO "[telemetry] initialized state file at %s")
      (fun _ => ret tt) p = (Ok tt, q)
    /\ trace q = trace p ++ evs
    /\ Forall (fun e => is_log e = true) evs
    /\ _HAS_LOGGED_SCHEDULE q = _HAS_LOGGED_SCHEDULE p.
Proof.
  destruct (_get_state_file_logs c) as (path & evs & Hevs & Hpath).
  destruct (_ensure_instance_id_returns c (with_trace (trace p ++ evs) p))
    as (id & p1 & Hid).
  destruct (_ensure_instance_id_footprint c (with_trace (trace p ++ evs) p))
    as (path' & _ & (_ & Hflag & _) & (evs' & Htr & Hevs') & _).
  rewrite Hid in Htr, Hflag. simpl in Htr, Hflag.
  eexists _, (evs ++ evs' ++ [Log INFO "[telemetry] initialized state file at %s"]).
  split; [unfold try_except, bind; rewrite Hpath, Hid; reflexivity|].
  simpl. rewrite Htr, <- !app_assoc. split; [reflexivity|]. split.
  - repeat (apply Forall_app; split); try assumption. repeat constructor.
  - exact Hflag.
Qed.

Lemma try_except_swallows (m : M unit) p :
  uncancelled m -> fst (try_except m (fun _ => ret tt) p) = Ok tt.
Proof.
  intros Hm. specialize (Hm p). unfold try_except.
  destruct (m p) as [[[]|[e|]] p']; simpl in *;
    [reflexivity|reflexivity|now elim Hm].
Qed.

(** X11: the background entry point never raises: it returns normally
    whatever the environment, the file system, the event loop and the
    network do, on the first call and on every later one. *)
Theorem X11_background_never_raises :
  forall c p, fst (maybe_send_telemetry_background c p) = Ok tt.
Proof.
  intros c p. destruct (_HAS_SCHEDULED_SEND p) eqn:Hflag.
  - now rewrite background_noop.
  - unfold maybe_send_telemetry_background. rewrite Hflag.
    destruct (eager_identity_logs c (with_scheduled_send true p))
      as (q & evs & Hq & _).
    rewrite (bind_ok _ _ _ _ _ Hq).
    unfold get_event_loop_is_running. destruct (event_loop c).
    + erewrite try_except_caught by reflexivity.
      apply try_except_swallows.
      apply uncancelled_bind; [apply uncancelled_make_payload|].
      intros payload. apply uncancelled_post_sync.
    + erewrite try_except_ok by reflexivity. reflexivity.
    + unfold try_except, bind, ret, ensure_future, log, emit. simpl.
      destruct (_HAS_LOGGED_SCHEDULE q); reflexivity.
Qed.

(** X12: when an event loop can be obtained, the background entry point
    itself makes no request: it adds only log lines and, under a running
    loop, the two scheduling events; with a loop that is not running it
    schedules nothing at all. *)
Theorem X12_background_with_a_loop_makes_no_request :
  forall c p,
    event_loop c <> NoEventLoop ->
    exists evs,
      trace (snd (maybe_send_telemetry_background c p)) = trace p ++ evs
      /\ Forall (fun e => is_dispatch e = false) evs
      /\ (event_loop c = LoopIdle -> Forall (fun e => is_log e = true) evs).
Proof.
  intros c p Hloop. destruct (_HAS_SCHEDULED_SEND p) eqn:Hflag.
  - rewrite background_noop by assumption. exists [].
    simpl. rewrite app_nil_r. repeat split; constructor.
  - unfold maybe_send_telemetry_background. rewrite Hflag.
    destruct (eager_identity_logs c (with_scheduled_send true p))
      as (q & evs & Hq & Htr & Hevs & _).
    simpl in Htr.
    rewrite (bind_ok _ _ _ _ _ Hq).
    unfold get_event_loop_is_running.
    destruct (event_loop c); [now elim Hloop| |].
    + erewrite try_except_ok by reflexivity. exists evs.
      split; [exact Htr|]. split; [now apply logs_are_no_requests|].
      intros _. exact Hevs.
    + unfold try_except, bind, ret, ensure_future, log, emit. simpl.
      destruct (_HAS_LOGGED_SCHEDULE q); simpl; rewrite Htr, <- !app_assoc;
        eexists; (split; [reflexivity|]); (split; [|discriminate]);
        (apply Forall_app; split; [now apply logs_are_no_requests|]);
        repeat constructor.
Qed.

(** A host whose event loop exists but does not run. *)
Lemma X12_idle_loop_host :
  event_loop (host ∅ LoopIdle) <> NoEventLoop
  /\ exists evs,
       trace (snd (maybe_send_telemetry_background (host ∅ LoopIdle)
                     (fresh_process ∅)))
       = trace (fresh_process ∅) ++ evs
       /\ Forall (fun e => is_dispatch e = false) evs.
Proof.
  assert (Hloop : event_loop (host ∅ LoopIdle) <> NoEventLoop)
    by discriminate.
  split; [exact Hloop|].
  destruct (X12_background_with_a_loop_makes_no_request
              (host ∅ LoopIdle) (fresh_process ∅) Hloop)
    as (evs & Htr & Hno & _).
  exists evs. split; [exact Htr|exact Hno].
Defined.

(** ** The periodic loop, further *)






(** ** The schedule, further *)

Section Schedule.
Local Open Scope Z_scope.

(** The delay as a function of the clock fields. *)
Lemma seconds_until_value now :
  valid_datetime now ->
  toordinal now < _MAXORDINAL \/ hour now < 22 ->
  _seconds_until_next_even_utc_hour now
  = Some (Z.max US_PER_SECOND
            ((if hour now mod 2 =? 0 then 2 else 1) * US_PER_HOUR
             - ((minute now * 60 + second now) * US_PER_SECOND
                + microsecond now))).
Proof.
  intros Hvalid Hroom.
  set (ahead := if hour now mod 2 =? 0 then 2 else 1).
  assert (Hahead : 1 <= ahead <= 2)
    by (subst ahead; destruct (hour now mod 2 =? 0); lia).
  destruct (hour_boundary_after now ahead Hvalid Hahead ltac:(lia))
    as (nxt & Hadd & _ & Hord & Hhour & Hmin & Hsec & Hus).
  destruct Hvalid as (_ & _ & _ & Hh & _).
  assert (Hsub : datetime_sub nxt now
                 = ahead * US_PER_HOUR
                   - ((minute now * 60 + second now) * US_PER_SECOND
                      + microsecond now)).
  { unfold datetime_sub. rewrite Hord, Hhour, Hmin, Hsec, Hus.
    unfold US_PER_DAY, US_PER_HOUR, US_PER_SECOND.
    clearbody ahead. Z.div_mod_to_equations. lia. }
  unfold _seconds_until_next_even_utc_hour.
  change (hour (replace_to_hour now)) with (hour now).
  rewrite <- Hsub. subst ahead.
  destruct (datetime_le now (replace_to_hour now));
    destruct (hour now mod 2 =? 0); now rewrite Hadd.
Qed.

(** The last two hours of year 9999: the boundary is out of range. *)
Lemma hour_boundary_overflow now ahead :
  valid_datetime now ->
  1 <= ahead <= 2 ->
  toordinal now = _MAXORDINAL -> 24 <= hour now + ahead ->
  datetime_add (replace_to_hour now) (timedelta_hours ahead) = None.
Proof.
  intros (_ & _ & _ & Hh & _) Hahead Hlast Hover.
  unfold datetime_add, to_microseconds, timedelta_hours.
  change (toordinal (replace_to_hour now)) with (toordinal now).
  cbn [replace_to_hour hour minute second microsecond].
  unfold US_PER_DAY, US_PER_HOUR, US_PER_SECOND.
  set (total := toordinal now * 86400000000
                + ((hour now * 60 + 0) * 60 + 0) * 1000000 + 0
                + ahead * 3600000000).
  assert (Hdays : total / 86400000000 = _MAXORDINAL + 1).
  { subst total. rewrite Hlast. unfold _MAXORDINAL.
    Z.div_mod_to_equations. lia. }
  rewrite Hdays.
  assert (Hout : (0 <? _MAXORDINAL + 1) && (_MAXORDINAL + 1 <=? _MAXORDINAL)
                 = false) by lia.
  now rewrite Hout.
Qed.

(** X14: seen on the absolute time line, the wake-up is aligned to the
    grid of [_PERIOD_HOURS] hours: with [B] the least multiple of two hours
    that lies strictly after now, the delay is [max(1 s, B - now)]; it is
    between one second and two hours, and the wake-up falls on [B] or less
    than a second after it.  Time is counted in microseconds. *)
Theorem X14_wake_up_on_the_period_grid :
  forall now,
    valid_datetime now ->
    toordinal now < _MAXORDINAL \/ hour now < 22 ->
    let T := to_microseconds now in
    let P := _PERIOD_HOURS * US_PER_HOUR in
    let B := (T / P + 1) * P in
    exists delay,
      _seconds_until_next_even_utc_hour now = Some delay
      /\ T < B
      /\ delay = Z.max US_PER_SECOND (B - T)
      /\ US_PER_SECOND <= delay <= P
      /\ B <= T + delay < B + US_PER_SECOND.
Proof.
  intros now Hvalid Hroom T P B.
  rewrite (seconds_until_value now Hvalid Hroom).
  eexists. split; [reflexivity|].
  pose proof (toordinal_bounds now Hvalid) as Hord.
  destruct Hvalid as (_ & _ & _ & Hh & Hmi & Hse & Hmu).
  assert (Hgap : B - T
                 = (if hour now mod 2 =? 0 then 2 else 1) * US_PER_HOUR
                   - ((minute now * 60 + second now) * US_PER_SECOND
                      + microsecond now)).
  { subst B P T. unfold to_microseconds, _PERIOD_HOURS, US_PER_DAY,
      US_PER_HOUR, US_PER_SECOND.
    destruct (Z.eqb_spec (hour now mod 2) 0);
      Z.div_mod_to_equations; lia. }
  rewrite <- Hgap.
  assert (Hrange : 0 < B - T <= P).
  { rewrite Hgap. subst P. unfold _PERIOD_HOURS, US_PER_HOUR, US_PER_SECOND.
    destruct (hour now mod 2 =? 0); lia. }
  assert (HP : P = 7200000000) by reflexivity.
  unfold US_PER_SECOND. lia.
Qed.

(** Half past one on New Year's Day 2024: the boundary is 02:00. *)
Lemma X14_half_past_one_on_the_grid :
  valid_datetime (at_2024_01_01 1 30 0)
  /\ hour (at_2024_01_01 1 30 0) < 22
  /\ exists delay,
       _seconds_until_next_even_utc_hour (at_2024_01_01 1 30 0) = Some delay
       /\ US_PER_SECOND <= delay <= _PERIOD_HOURS * US_PER_HOUR.
Proof.
  assert (Hvalid : valid_datetime (at_2024_01_01 1 30 0)).
  { unfold valid_datetime, at_2024_01_01.
    cbn [year month day hour minute second microsecond].
    change (_days_in_month 2024 1) with 31. lia. }
  assert (Hroom : toordinal (at_2024_01_01 1 30 0) < _MAXORDINAL
                  \/ hour (at_2024_01_01 1 30 0) < 22)
    by (right; unfold at_2024_01_01; simpl; lia).
  split; [exact Hvalid|]. split; [unfold at_2024_01_01; simpl; lia|].
  destruct (X14_wake_up_on_the_period_grid (at_2024_01_01 1 30 0)
              Hvalid Hroom)
    as (delay & Hres & _ & _ & Hbounds & _).
  exists delay. split; [exact Hres|exact Hbounds].
Defined.

(** X15: the delay cannot be computed, because the boundary would lie
    outside the years that [datetime] supports (the [OverflowError] of the
    source), exactly in the last two hours of year 9999. *)
Theorem X15_no_delay_at_the_end_of_time :
  forall now,
    valid_datetime now ->
    (_seconds_until_next_even_utc_hour now = None
     <-> toordinal now = _MAXORDINAL /\ 22 <= hour now).
Proof.
  intros now Hvalid. split.
  - intros Hnone.
    pose proof (toordinal_bounds now Hvalid) as Hord.
    destruct (Z_lt_ge_dec (toordinal now) _MAXORDINAL) as [Hlt|Hge].
    + rewrite seconds_until_value in Hnone by auto. discriminate.
    + destruct (Z_lt_ge_dec (hour now) 22) as [Hh|Hh].
      * rewrite seconds_until_value in Hnone by auto. discriminate.
      * lia.
  - intros [Hlast Hlate].
    pose proof Hvalid as (_ & _ & _ & Hh & _).
    unfold _seconds_until_next_even_utc_hour.
    change (hour (replace_to_hour now)) with (hour now).
    assert (Hadd : (if hour now mod 2 =? 0
                    then datetime_add (replace_to_hour now) (timedelta_hours 2)
                    else datetime_add (replace_to_hour now) (timedelta_hours 1))
                   = None).
    { destruct (Z.eqb_spec (hour now mod 2) 0) as [Heven|Hodd].
      - apply hour_boundary_overflow; try assumption; lia.
      - apply hour_boundary_overflow; try assumption; try lia.
        Z.div_mod_to_equations. lia. }
    destruct (datetime_le now (replace_to_hour now)); now rewrite Hadd.
Qed.

(** Ten o'clock in the evening of the last day of year 9999. *)
Lemma X15_last_evening :
  let now := {| year := 9999; month := 12; day := 31;
                hour := 22; minute := 0; second := 0; microsecond := 0 |} in
  valid_datetime now
  /\ _seconds_until_next_even_utc_hour now = None.
Proof.
  assert (Hvalid : valid_datetime
                     {| year := 9999; month := 12; day := 31;
                        hour := 22; minute := 0; second := 0;
                        microsecond := 0 |}).
  { unfold valid_datetime.
    cbn [year month day hour minute second microsecond].
    change (_days_in_month 9999 12) with 31. lia. }
  split; [exact Hvalid|].
  apply (proj2 (X15_no_delay_at_the_end_of_time _ Hvalid)).
  split; [reflexivity|]. simpl. lia.
Defined.

End Schedule.

(** ** The version file *)

(** X16: reading the version never raises and changes nothing in the
    process: it yields the content of the file as text mode reads it (the
    line ends [\r\n] and [\r] read as [\n]), trimmed, which is the empty
    string for a blank file, and nothing when the file is missing or
    cannot be read. *)
Theorem X16_version_is_read_fail_silent :
  forall c vf p,
    _get_version c vf p
    = (Ok match files p !! vf with
          | Some content =>
              if read_fails (faults c) then None
              else Some (str_strip (universal_newlines content))
          | None => None
          end, p).
Proof.
  intros c vf p.
  unfold _get_version, try_except, bind, os_path_exists, read_text, ret.
  destruct (files p !! vf) as [content|] eqn:Hfile.
  - rewrite bool_decide_eq_true_2 by eauto.
    destruct (read_fails (faults c)); [reflexivity|].
    now rewrite Hfile.
  - rewrite bool_decide_eq_false_2; [reflexivity|].
    intros [x Hx]. discriminate.
Qed.

(** ** What holds along a whole lifetime

    A relation between the process before and after that is reflexive and
    transitive, that logging and setting the guard and the two once-only
    log flags respect, and that the identity store respects, holds between
    the start and the end of any lifetime.  Nothing is asked about the flag
    of the project-name test: that branch is never taken. *)

Section LifetimeInvariant.

Variable R : process -> process -> Prop.
Hypothesis R_refl : forall p, R p p.
Hypothesis R_trans : forall p q r, R p q -> R q r -> R p r.
Hypothesis R_trace : forall tr p, R p (with_trace tr p).
Hypothesis R_guard : forall p, R p (with_scheduled_send true p).
Hypothesis R_schedule : forall p, R p (with_logged_schedule true p).
Hypothesis R_skip : forall p, R p (with_logged_skip true p).
Hypothesis R_store : forall c p, R p (snd (_ensure_instance_id c p)).

Lemma moves_ret {A} (a : A) : moves R (ret a).
Proof. intros p. apply R_refl. Qed.

Lemma moves_raise {A} e : moves R (@raise A e).
Proof. intros p. apply R_refl. Qed.

Lemma moves_emit e : moves R (emit e).
Proof. intros p. apply R_trace. Qed.

Lemma moves_log l msg : moves R (log l msg).
Proof. apply moves_emit. Qed.

Lemma moves_bind {A B} (m : M A) (k : A -> M B) :
  moves R m -> (forall a, moves R (k a)) -> moves R (bind m k).
Proof.
  intros Hm Hk p. unfold bind. specialize (Hm p).
  destruct (m p) as [[a|r] p']; simpl in *; [|assumption].
  eapply R_trans; [eassumption|apply Hk].
Qed.

Lemma moves_try_except {A} (m : M A) (h : exception -> M A) :
  moves R m -> (forall e, moves R (h e)) -> moves R (try_except m h).
Proof.
  intros Hm Hh p. unfold try_except. specialize (Hm p).
  destruct (m p) as [[a|[e|]] p']; simpl in *; try assumption.
  eapply R_trans; [eassumption|apply Hh].
Qed.

Ltac moves_steps :=
  repeat first
    [ apply moves_bind; [|intros ?]
    | apply moves_try_except; [|intros ?]
    | apply moves_ret
    | apply moves_raise
    | apply moves_log
    | apply moves_emit
    | match goal with
      | |- moves _ (if ?b then _ else _) => destruct b
      | |- moves _ (match ?x with _ => _ end) => destruct x
      end ].

Lemma moves_make_payload c : moves R (_make_payload c).
Proof.
  unfold _make_payload.
  apply moves_bind; [exact (R_store c)|intros rid]. moves_steps.
Qed.

Lemma moves_post_sync c url data timeout :
  moves R (_post_sync c url data timeout).
Proof. unfold _post_sync, Request, urlopen_call. moves_steps. Qed.

Lemma moves_send c : moves R (maybe_send_telemetry_async c).
Proof.
  unfold maybe_send_telemetry_async.
  change (negb (str_bool _get_project_name)) with false. cbv iota.
  destruct (negb (str_bool (_get_endpoint (environ c)))
            || _env_opt_out (environ c)).
  - intros p. destruct (negb (_HAS_LOGGED_SKIP p)).
    + eapply R_trans; [apply R_skip|apply moves_log].
    + apply moves_log.
  - apply moves_bind; [apply moves_make_payload|intros payload].
    apply moves_try_except; [|intros e; apply moves_ret].
    unfold get_running_loop.
    apply moves_bind; [moves_steps|intros _].
    apply moves_bind; [apply moves_log|intros _].
    intros p. unfold run_in_executor.
    pose proof (moves_post_sync c (_get_endpoint (environ c))
                  (encode_utf8 (json_dumps "," ":" payload))
                  DEFAULT_TIMEOUT p) as Hjob.
    destruct (in_flight c); [exact Hjob|].
    destruct (job_started c); [exact Hjob|apply R_refl].
Qed.

Lemma moves_asyncio_sleep d s : moves R (asyncio_sleep d s).
Proof.
  unfold asyncio_sleep.
  apply moves_bind; [apply moves_emit|intros _].
  destruct s; [apply moves_ret|]. intros q. apply R_refl.
Qed.

Lemma moves_tick_body t : moves R (tick_body t).
Proof.
  unfold tick_body.
  apply moves_bind; [moves_steps|intros d].
  apply moves_bind; [apply moves_asyncio_sleep|intros _].
  destruct (_env_opt_out (environ (at_wake t)));
    [apply moves_ret|apply moves_send].
Qed.

Lemma moves_loop_iteration t p : R p (snd (loop_iteration t p)).
Proof.
  unfold loop_iteration. pose proof (moves_tick_body t p) as Hbody.
  destruct (tick_body t p) as [[u|[e|]] p']; simpl in *; try assumption.
  pose proof (moves_asyncio_sleep BACKOFF (backoff_ends t) p') as Hs.
  destruct (asyncio_sleep BACKOFF (backoff_ends t) p') as [[u|[e'|]] p''];
    simpl in *; eapply R_trans; eassumption.
Qed.

Lemma moves_background c : moves R (maybe_send_telemetry_background c).
Proof.
  intros p. unfold maybe_send_telemetry_background.
  destruct (_HAS_SCHEDULED_SEND p); [apply R_refl|].
  apply (R_trans _ (with_scheduled_send true p)); [apply R_guard|].
  generalize (with_scheduled_send true p).
  apply moves_bind; [|intros _].
  - apply moves_try_except; [|intros e; apply moves_ret].
    apply moves_bind; [|intros path].
    + unfold _get_state_file. moves_steps.
    + apply moves_bind; [exact (R_store c)|intros id]. apply moves_log.
  - apply moves_try_except.
    + apply moves_bind; [|intros running].
      * unfold get_event_loop_is_running. moves_steps.
      * destruct running; [|apply moves_ret].
        apply moves_bind; [|intros _].
        -- intros q. destruct (negb (_HAS_LOGGED_SCHEDULE q)).
           ++ eapply R_trans; [apply R_schedule|apply moves_log].
           ++ apply moves_log.
        -- unfold ensure_future. moves_steps.
    + intros e.
      apply moves_try_except; [|intros e'; apply moves_ret].
      apply moves_bind; [apply moves_make_payload|].
      intros payload. apply moves_post_sync.
Qed.

Lemma moves_lifetime acts : forall p, R p (lifetime acts p).
Proof.
  unfold lifetime.
  induction acts as [|a acts IH]; intros p; [apply R_refl|].
  simpl. eapply R_trans; [|apply IH].
  destruct a as [c|c|t]; simpl.
  - apply moves_background.
  - apply moves_send.
  - apply moves_loop_iteration.
Qed.

End LifetimeInvariant.

(** The identity store writes only where there is no usable content. *)
Lemma keeps_identity_store c p :
  keeps_identity p (snd (_ensure_instance_id c p)).
Proof.
  destruct (_get_state_file_logs c) as (path & evs & Hlogs & Hpath).
  unfold _ensure_instance_id, bind, try_except. rewrite Hpath.
  unfold os_path_exists, read_text, write_text, makedirs_parent, uuid4,
    log, emit, ret, bind, try_except.
  simpl.
  destruct (faults c) as [rf mf opf wf]; simpl.
  destruct (files p !! path) as [content|] eqn:Hfile; simpl.
  all: destruct rf, mf, opf, wf; repeat (rewrite ?Hfile; simpl).
  all: rewrite ?read_usable.
  all: try (destruct (str_bool (str_strip content)) eqn:Hraw;
            [|apply str_bool_false in Hraw];
            repeat (rewrite ?Hfile; simpl)).
  all: intros path' content' Hlook Husable; simpl; try exact Hlook.
  all: destruct (decide (path = path')) as [<-|Hne];
    [exfalso; congruence|now rewrite lookup_insert_ne].
Qed.

(** X17: a file whose content is usable as an identifier (not blank once
    trimmed) is never modified or removed, whatever the module does
    afterwards: in any sequence of background calls, sends and loop
    iterations, under any environment, file-system faults and network, it
    keeps its content. *)
Theorem X17_usable_state_file_is_never_modified :
  forall acts p path content,
    files p !! path = Some content ->
    str_strip content <> "" ->
    files (lifetime acts p) !! path = Some content.
Proof.
  intros acts p path content Hfile Husable.
  refine (moves_lifetime keeps_identity _ _ _ _ _ _ keeps_identity_store
            acts p path content Hfile Husable).
  - intros q path' content' H _. exact H.
  - intros q1 q2 q3 H1 H2 path' content' H Hu. apply H2; [apply H1|]; assumption.
  - intros tr q path' content' H _. exact H.
  - intros q path' content' H _. exact H.
  - intros q path' content' H _. exact H.
  - intros q path' content' H _. exact H.
Qed.

(** An identifier written by an earlier run survives a start, a send and a
    loop iteration with the state file at its place. *)
Lemma X17_identifier_survives :
  let path := "/srv/app/.telemetry_id" in
  let p := fresh_process {[ path := "0f8fad5b-d9cb-469f-a165-70867728950e" ]} in
  let c := host ∅ LoopRunning in
  let t := {| at_start := c; sleep_ends := Resumed; at_wake := c;
              backoff_ends := Resumed |} in
  files p !! path = Some "0f8fad5b-d9cb-469f-a165-70867728950e"
  /\ files (lifetime [StartBackground c; RunSend c; RunIteration t] p) !! path
     = Some "0f8fad5b-d9cb-469f-a165-70867728950e".
Proof.
  split; [reflexivity|].
  apply X17_usable_state_file_is_never_modified; [reflexivity|].
  vm_compute. discriminate.
Defined.

(** X20: the project-name test of the send never fires: the module's
    project name is not empty, so in any sequence of background calls,
    sends and loop iterations the flag [_HAS_LOGGED_NO_PROJECT] keeps the
    value it had, and no send is skipped for a missing project name. *)
Theorem X20_project_name_test_is_dead :
  str_bool _get_project_name = true
  /\ forall acts p,
       _HAS_LOGGED_NO_PROJECT (lifetime acts p) = _HAS_LOGGED_NO_PROJECT p.
Proof.
  split; [reflexivity|]. intros acts p.
  refine (moves_lifetime
            (fun p q => _HAS_LOGGED_NO_PROJECT q = _HAS_LOGGED_NO_PROJECT p)
            _ _ _ _ _ _ _ acts p); try reflexivity.
  - intros q1 q2 q3 H1 H2. congruence.
  - intros c q.
    destruct (_ensure_instance_id_footprint c q)
      as (path & _ & (_ & _ & _ & Hflag) & _).
    exact Hflag.
Qed.

(** ** The fallback of the background entry point *)

(** X19: when no event loop can be obtained, the first background call
    builds the payload and, if the request constructor finds a scheme in
    the endpoint (once unwrapped and its fragment cut), posts it once in
    the calling thread, serialized with the default separators of
    [json.dumps] (not the compact ones of the asynchronous send); if the
    endpoint has no scheme nothing is posted.  Either way the call returns
    normally, and the opt-out setting is not consulted. *)
Theorem X19_fallback_posts_synchronously :
  forall c p,
    event_loop c = NoEventLoop ->
    _HAS_SCHEDULED_SEND p = false ->
    exists evs q payload p1,
      trace q = trace p ++ evs
      /\ Forall (fun e => is_log e = true) evs
      /\ _make_payload c q = (Ok payload, p1)
      /\ maybe_send_telemetry_background c p
         = (Ok tt,
            if has_scheme (_get_endpoint (environ c))
            then
              with_trace
                (trace p1
                 ++ [Dispatch (_get_endpoint (environ c))
                       (encode_utf8 (json_dumps ", " ": " payload))
                       (2 * US_PER_SECOND)%Z]) p1
            else p1).
Proof.
  intros c p Hloop Hflag.
  unfold maybe_send_telemetry_background. rewrite Hflag.
  destruct (eager_identity_logs c (with_scheduled_send true p))
    as (q & evs & Hq & Htr & Hevs & _).
  simpl in Htr.
  destruct (_make_payload_returns c q) as (rid & p1 & _ & Hpay).
  exists evs, q. eexists _, p1.
  split; [exact Htr|]. split; [exact Hevs|]. split; [exact Hpay|].
  rewrite (bind_ok _ _ _ _ _ Hq).
  unfold get_event_loop_is_running. rewrite Hloop.
  erewrite try_except_caught by reflexivity.
  unfold try_except. rewrite (bind_ok _ _ _ _ _ Hpay).
  destruct (has_scheme (_get_endpoint (environ c))) eqn:Hscheme.
  - now rewrite _post_sync_with_scheme.
  - now rewrite _post_sync_without_scheme.
Qed.

(** A host without an event loop: one request, with spaces after the
    separators. *)
Lemma X19_host_without_a_loop :
  let c := host ∅ NoEventLoop in
  event_loop c = NoEventLoop
  /\ _HAS_SCHEDULED_SEND (fresh_process ∅) = false
  /\ exists payload p',
       maybe_send_telemetry_background c (fresh_process ∅) = (Ok tt, p')
       /\ dispatches (trace p')
          = [Dispatch _DEFAULT_ENDPOINT
               (encode_utf8 (json_dumps ", " ": " payload))
               (2 * US_PER_SECOND)%Z].
Proof.
  split; [reflexivity|]. split; [reflexivity|].
  destruct (X19_fallback_posts_synchronously (host ∅ NoEventLoop)
              (fresh_process ∅) eq_refl eq_refl)
    as (evs & q & payload & p1 & Htr & Hevs & Hpay & Hrun).
  destruct (_make_payload_logs _ _ _ _ Hpay) as (evs' & Htr' & Hevs').
  exists payload. eexists. split; [exact Hrun|].
  change (has_scheme (_get_endpoint (environ (host ∅ NoEventLoop))))
    with true.
  cbv iota. simpl trace. rewrite Htr', Htr.
  rewrite !dispatches_app, (dispatches_logs evs Hevs),
    (dispatches_logs evs' Hevs').
  reflexivity.
Defined.

(** ** Line ends and cancellation, by example *)

Example line_ends_are_read_as_newlines :
  universal_newlines ("ab" ++ String CR "cd")%string
  = ("ab" ++ String LF "cd")%string
  /\ universal_newlines ("ab" ++ String CR (String LF "cd"))%string
     = ("ab" ++ String LF "cd")%string
  /\ universal_newlines ("ab" ++ String LF "cd")%string
     = ("ab" ++ String LF "cd")%string.
Proof. repeat split; reflexivity. Qed.

(** An identifier stored with a carriage return inside is returned with a
    newline in its place; the file is left as it is. *)
Example stored_carriage_return :
  let path := "/srv/app/.telemetry_id" in
  let p := fresh_process {[ path := ("ab" ++ String CR "cd")%string ]} in
  let r := _ensure_instance_id (host ∅ LoopRunning) p in
  fst r = Ok ("ab" ++ String LF "cd")%string
  /\ files (snd r) !! path = Some ("ab" ++ String CR "cd")%string.
Proof. vm_compute. split; reflexivity. Qed.

(** A send cancelled while its job is still queued makes no request; one
    cancelled after the job has started makes it. *)
Example send_cancelled_in_flight :
  let c started :=
    {| environ := ∅; module_state_file := "/srv/app/.telemetry_id";
       utcnow := at_2024_01_01 1 30 0; urandom := fun _ => 0%Z;
       faults := no_faults; event_loop := LoopRunning;
       urlopen := fun _ _ _ => Responds 200;
       in_flight := Cancel; job_started := started |} in
  let r started := maybe_send_telemetry_async (c started) (fresh_process ∅) in
  fst (r false) = Raise CancelledError
  /\ omap dispatched_to (trace (snd (r false))) = []
  /\ fst (r true) = Raise CancelledError
  /\ omap dispatched_to (trace (snd (r true))) = [_DEFAULT_ENDPOINT].
Proof. vm_compute. repeat split; reflexivity. Qed.
